(** * MindSphere: the OpenRouter service (server/src/services/openRouterService.js)

    A shallow embedding of the retry wrapper [retryWithExponentialBackoff],
    of the completion client [callOpenRouterAPI] and of the four generation
    functions, with the properties of the service's specification.

    Conventions of the embedding.
    - JavaScript values are the inductive type [value]; numbers are exact
      decimals (the rounding to IEEE doubles, NaN and the infinities are
      outside the model), [maxRetries] and HTTP statuses are integers, and a
      string is the sequence of the bytes of its UTF-8 form.
    - An [async] function is a state transformer returning a [completion]:
      [Return v] for a fulfilled promise, [Throw e] for a rejected one.
      [await] is sequencing; the calls of one logical request are not
      interleaved with anything else.
    - Timers and the network are recorded, not executed: [setTimeout] adds a
      [Sleep] event to the trace, [fetch] is a transition of an abstract
      network state and logs the request it was given. *)

From Stdlib Require Import ZArith List String Ascii Bool Lia.
From Stdlib Require Import Numbers.DecimalString.
Import ListNotations.

Local Open Scope string_scope.
Local Open Scope Z_scope.

Set Warnings "-register-all".

(* ================================================================== *)
(** ** JavaScript values *)
(* ================================================================== *)

(** A number [mant * 10 ^ expo]. *)
Record number : Type := Dec { mant : Z; expo : Z }.

Definition num_of_Z (z : Z) : number := Dec z 0.

(** Numeric equality, by scaling both sides to the smaller exponent. *)
Definition number_eqb (a b : number) : bool :=
  let k := Z.min (expo a) (expo b) in
  (mant a * 10 ^ (expo a - k) =? mant b * 10 ^ (expo b - k)).

Inductive value : Type :=
| VUndefined
| VNull
| VBool (b : bool)
| VNum (n : number)
| VStr (s : string)
| VArr (elems : list value)
| VObj (props : list (string * value))
    (* own properties of a plain object, in insertion order *)
| VError (name message : string) (props : list (string * value)).
    (* an Error instance: its class name, its message, and the properties
       assigned to it afterwards *)

Definition VInt (z : Z) : value := VNum (num_of_Z z).

(** The outcome of evaluating an expression or settling a promise. *)
Inductive completion (A : Type) : Type :=
| Return (a : A)
| Throw (e : value).
Arguments Return {A} a.
Arguments Throw {A} e.

Definition bind {A B} (c : completion A) (k : A -> completion B) : completion B :=
  match c with
  | Return a => k a
  | Throw e => Throw e
  end.

Notation "x <- c ;; k" := (bind c (fun x => k))
  (at level 61, c at next level, right associativity).

(** [new Error(message)], [new TypeError(message)], [new SyntaxError(message)]. *)
Definition Error (message : string) : value := VError "Error" message [].
Definition TypeError (message : string) : value := VError "TypeError" message [].
Definition SyntaxError (message : string) : value := VError "SyntaxError" message [].

Definition is_nullish (v : value) : bool :=
  match v with
  | VUndefined | VNull => true
  | _ => false
  end.

(** ToBoolean. *)
Definition truthy (v : value) : bool :=
  match v with
  | VUndefined | VNull => false
  | VBool b => b
  | VNum n => negb (mant n =? 0)
  | VStr s => negb (String.eqb s "")
  | VArr _ | VObj _ | VError _ _ _ => true
  end.

(** [a || b] on values that are already evaluated. *)
Definition js_or (a b : value) : value := if truthy a then a else b.

Fixpoint lookup (key : string) (props : list (string * value)) : option value :=
  match props with
  | [] => None
  | (k, v) :: rest => if String.eqb k key then Some v else lookup key rest
  end.

Definition describe_nullish (v : value) : string :=
  match v with
  | VNull => "null"
  | _ => "undefined"
  end.

(** [v.key].  Reading a property of [null] or [undefined] throws; a missing
    property reads as [undefined].  The members that primitives and arrays
    inherit from their prototypes are not modelled: none of them is called
    status, choices, message, content, title or summary, the only names the
    service reads. *)
Definition get_prop (v : value) (key : string) : completion value :=
  match v with
  | VUndefined | VNull =>
      Throw (TypeError ("Cannot read properties of " ++ describe_nullish v
                          ++ " (reading '" ++ key ++ "')"))
  | VObj props =>
      Return (match lookup key props with Some x => x | None => VUndefined end)
  | VError name message props =>
      Return (match lookup key props with
              | Some x => x
              | None => if String.eqb key "message" then VStr message
                        else if String.eqb key "name" then VStr name
                        else VUndefined
              end)
  | VBool _ | VNum _ | VStr _ | VArr _ => Return VUndefined
  end.

(** [v === n] for a number literal [n]. *)
Definition strict_eq_num (v : value) (n : Z) : bool :=
  match v with
  | VNum d => number_eqb d (num_of_Z n)
  | _ => false
  end.

(* ================================================================== *)
(** ** The backoff executor: retryWithExponentialBackoff *)
(* ================================================================== *)

(** What the executor does besides running the operation: [Invoke] marks one
    call [apiCall()], [Sleep ms] one [setTimeout(resolve, ms)] awaited. *)
Inductive event : Type :=
| Invoke
| Sleep (ms : Z).

(** [const isRetryable = error.status === 503 || error.status === 429
                         || error.status === 500;] *)
Definition isRetryable (error : value) : completion bool :=
  s503 <- get_prop error "status" ;;
  if strict_eq_num s503 503 then Return true else
  s429 <- get_prop error "status" ;;
  if strict_eq_num s429 429 then Return true else
  s500 <- get_prop error "status" ;;
  Return (strict_eq_num s500 500).

(** [Math.pow(2, attempt - 1) * 1000] *)
Definition delayMs (attempt : Z) : Z := 2 ^ (attempt - 1) * 1000.

Section BackoffExecutor.

(** The state the wrapped operation acts on (the network, a mock's
    counter, ...). *)
Context {World : Type}.

(** A zero-argument asynchronous operation. *)
Definition operation : Type := World -> completion value * World.

Record run : Type := Run {
  outcome : completion value;
  world : World;
  trace : list event
}.

Variable apiCall : operation.
Variable maxRetries : Z.

(** The [for] loop, by recursion on the number of iterations that are
    left: [remaining] is [0] exactly when [attempt <= maxRetries] fails
    (lemma [remaining_guard]).  [lastError], [attempt] and the trace are
    the loop's variables. *)
Fixpoint attempts (remaining : nat) (attempt : Z) (lastError : value)
    (w : World) (tr : list event) : run :=
  match remaining with
  | O => Run (Throw lastError) w tr
  | S remaining' =>
      let (settled, w1) := apiCall w in
      let tr1 := (tr ++ [Invoke])%list in
      match settled with
      | Return result => Run (Return result) w1 tr1
      | Throw error =>
          let lastError := error in
          match isRetryable error with
          | Throw e => Run (Throw e) w1 tr1
          | Return false => Run (Throw error) w1 tr1
          | Return true =>
              if attempt =? maxRetries
              then Run (Throw lastError) w1 tr1
              else attempts remaining' (attempt + 1) lastError w1
                     (tr1 ++ [Sleep (delayMs attempt)])%list
          end
      end
  end.

End BackoffExecutor.

(** The default of the parameter [maxRetries = 3]. *)
Definition budget (maxRetriesArg : option Z) : Z :=
  match maxRetriesArg with
  | Some n => n
  | None => 3
  end.

(** [retryWithExponentialBackoff(apiCall, maxRetries = 3)]: [lastError] is
    declared without a value, [attempt] starts at 1. *)
Definition retryWithExponentialBackoff {World : Type}
    (apiCall : @operation World) (maxRetriesArg : option Z) (w : World) : run :=
  let maxRetries := budget maxRetriesArg in
  attempts apiCall maxRetries (Z.to_nat maxRetries) 1 VUndefined w [].

(** *** Observations on a run and on an operation *)

Fixpoint invocations (tr : list event) : Z :=
  match tr with
  | [] => 0
  | Invoke :: rest => 1 + invocations rest
  | Sleep _ :: rest => invocations rest
  end.

Fixpoint delays (tr : list event) : list Z :=
  match tr with
  | [] => []
  | Invoke :: rest => delays rest
  | Sleep ms :: rest => ms :: delays rest
  end.

(** The world after [n] invocations of the operation, and what invocation
    number [n + 1] settles to. *)
Fixpoint world_after {World : Type} (apiCall : @operation World) (n : nat)
    (w : World) : World :=
  match n with
  | O => w
  | S n' => world_after apiCall n' (snd (apiCall w))
  end.

Definition settles {World : Type} (apiCall : @operation World) (n : nat)
    (w : World) : completion value :=
  fst (apiCall (world_after apiCall n w)).

(** The error's [status] field reads as the number [code]. *)
Definition status_is (error : value) (code : Z) : Prop :=
  exists s, get_prop error "status" = Return s /\ strict_eq_num s code = true.

(** The failure carries status 429, 500 or 503. *)
Definition retryable_status (error : value) : Prop :=
  status_is error 429 \/ status_is error 500 \/ status_is error 503.

(** The failure carries no status field (the field reads as [undefined]) or
    a status that is none of 429, 500 and 503. *)
Definition no_retryable_status (error : value) : Prop :=
  exists s, get_prop error "status" = Return s /\
    (s = VUndefined \/
     (strict_eq_num s 429 = false /\ strict_eq_num s 500 = false
      /\ strict_eq_num s 503 = false)).

(** [k] failed attempts, each followed by its delay; the first of them is
    attempt number [attempt]. *)
Fixpoint retry_prefix (attempt : Z) (k : nat) : list event :=
  match k with
  | O => []
  | S k' => Invoke :: Sleep (delayMs attempt) :: retry_prefix (attempt + 1) k'
  end.

(** The trace of [k] invocations in a row: a delay between any two of them,
    none after the last. *)
Definition backoff_trace (attempt : Z) (k : nat) : list event :=
  match k with
  | O => []
  | S k' => (retry_prefix attempt k' ++ [Invoke])%list
  end.

(* ================================================================== *)
(** ** Strings: ToString, template literals, the fenced-block pattern *)
(* ================================================================== *)

Definition dquote : string := String "034"%char "".
Definition nl : string := String "010"%char "".

(** The lines of a template literal, joined by its [\n] escapes. *)
Definition lines (ls : list string) : string := String.concat nl ls.

Definition digits (z : Z) : string :=
  NilEmpty.string_of_uint (N.to_uint (Z.to_N (Z.abs z))).

Fixpoint zeros (n : nat) : string :=
  match n with
  | O => ""
  | S n' => "0" ++ zeros n'
  end.

Fixpoint strip_zeros (fuel : nat) (m e : Z) : number :=
  match fuel with
  | O => Dec m e
  | S fuel' =>
      if m mod 10 =? 0 then strip_zeros fuel' (m / 10) (e + 1) else Dec m e
  end.

(** The representation with the shortest mantissa. *)
Definition normalize (x : number) : number :=
  if mant x =? 0 then Dec 0 0
  else strip_zeros (S (Z.to_nat (Z.log2 (Z.abs (mant x))))) (mant x) (expo x).

(** The representation the parser produces: an integer has exponent 0. *)
Definition canonical (x : number) : number :=
  let y := normalize x in
  if 0 <=? expo y then Dec (mant y * 10 ^ expo y) 0 else y.

(** Number::toString in radix 10 (ECMA-262), on the exact decimal. *)
Definition Number_toString (x : number) : string :=
  let y := normalize x in
  if mant y =? 0 then "0" else
  let d := digits (mant y) in
  let k := Z.of_nat (String.length d) in
  let n := k + expo y in
  (if mant y <? 0 then "-" else "") ++
  (if (k <=? n) && (n <=? 21) then d ++ zeros (Z.to_nat (n - k))
   else if (0 <? n) && (n <=? 21)
   then substring 0 (Z.to_nat n) d ++ "." ++ substring (Z.to_nat n) (Z.to_nat (k - n)) d
   else if (-6 <? n) && (n <=? 0) then "0." ++ zeros (Z.to_nat (- n)) ++ d
   else
     let e := n - 1 in
     let exponent := (if e <? 0 then "-" else "+") ++ digits e in
     if k =? 1 then d ++ "e" ++ exponent
     else substring 0 1 d ++ "." ++ substring 1 (Z.to_nat (k - 1)) d ++ "e" ++ exponent).

(** ToString (ECMA-262), as a template literal's [${...}] applies it.  An
    array is joined with commas, a plain object prints as [object Object],
    an error as its name and message. *)
Fixpoint ToString (v : value) : string :=
  match v with
  | VUndefined => "undefined"
  | VNull => "null"
  | VBool true => "true"
  | VBool false => "false"
  | VNum n => Number_toString n
  | VStr s => s
  | VArr elems =>
      String.concat ","
        (map (fun x => if is_nullish x then "" else ToString x) elems)
  | VObj _ => "[object Object]"
  | VError name message _ =>
      if String.eqb name "" then message
      else if String.eqb message "" then name
      else name ++ ": " ++ message
  end.

(** [strip_prefix p s] is what follows [p] in [s] when [s] starts with [p]. *)
Fixpoint strip_prefix (p s : string) : option string :=
  match p, s with
  | EmptyString, _ => Some s
  | String a p', String b s' => if Ascii.eqb a b then strip_prefix p' s' else None
  | String _ _, EmptyString => None
  end.

(** The two literal parts of the pattern [/```json\n([\s\S]*?)\n```/]. *)
Definition fence_open : string := "```json" ++ nl.
Definition fence_close : string := nl ++ "```".

(** The lazy group [([\s\S]*?)] followed by the literal [close]: the group
    takes no character if [close] follows at once, otherwise one more
    character (any character at all) and the same again. *)
Fixpoint lazy_any_then (close s : string) : option string :=
  match strip_prefix close s with
  | Some _ => Some ""
  | None =>
      match s with
      | EmptyString => None
      | String c s' => option_map (String c) (lazy_any_then close s')
      end
  end.

(** One match attempt of the whole pattern at the start of [s]; the result is
    the text of group 1. *)
Definition fence_here (s : string) : option string :=
  match strip_prefix fence_open s with
  | Some rest => lazy_any_then fence_close rest
  | None => None
  end.

(** The search of a pattern without flags: the attempts start at index 0 and
    move right, the first that succeeds is the match. *)
Fixpoint fence_search (s : string) : option string :=
  match fence_here s with
  | Some inner => Some inner
  | None =>
      match s with
      | EmptyString => None
      | String _ s' => fence_search s'
      end
  end.

(** [text.match(/```json\n([\s\S]*?)\n```/)], reduced to group 1 of the
    result ([None] for [null]).  Only strings have a [match] method. *)
Definition text_match (text : value) : completion (option string) :=
  match text with
  | VStr s => Return (fence_search s)
  | _ => Throw (TypeError "text.match is not a function")
  end.

(* ================================================================== *)
(** ** The completion client and the generation functions *)
(* ================================================================== *)

(** The platform's JSON object.  [JSON_parse] is [JSON.parse] on the string
    its argument has been converted to; [JSON_stringify] may answer
    [undefined]. *)
Class JSON : Type := {
  JSON_parse : string -> completion value;
  JSON_stringify : value -> value
}.

(** [JSON.parse] throws SyntaxError objects and nothing else (ECMA-262). *)
Definition throws_only_SyntaxError (J : JSON) : Prop :=
  forall text e, JSON_parse text = Throw e ->
    exists message props, e = VError "SyntaxError" message props.

(** The error of the service for a reply that is not JSON. *)
Definition parse_failure : value := Error "Failed to parse JSON from OpenRouter response".

(** The text contains a block [```json], newline, [inner], newline, [```]. *)
Definition fenced_json (text inner : string) : Prop :=
  exists pre post, text = pre ++ fence_open ++ inner ++ fence_close ++ post.

(** What [fetch] is called with, and the part of its result the service
    reads: [res.ok], [res.status], and what [res.json()] settles to. *)
Record request : Type := Request {
  url : string;
  method : string;
  headers : list (string * value);
  body : value
}.

Record response : Type := Response {
  ok : bool;
  status : Z;
  json : completion value
}.

(** The module's variables, read from the environment when it is loaded. *)
Record config : Type := Config {
  apiKey : value;
  model : value;
  siteUrl : value;
  siteTitle : value
}.

Definition env_value (x : option string) : value :=
  match x with
  | Some s => VStr s
  | None => VUndefined
  end.

Definition load_config (env : string -> option string) : config :=
  {| apiKey := env_value (env "OPENAI_API_KEY");
     model := js_or (env_value (env "OPENAI_MODEL")) (VStr "openai/gpt-4o");
     siteUrl := js_or (env_value (env "SITE_URL")) (VStr "");
     siteTitle := js_or (env_value (env "SITE_TITLE")) (VStr "") |}.

(** [a?.[0]] and [a?.key]. *)
Definition opt_index0 (a : value) : completion value :=
  match a with
  | VUndefined | VNull => Return VUndefined
  | VArr elems => Return (match elems with x :: _ => x | [] => VUndefined end)
  | VStr s => Return (match s with String c _ => VStr (String c "") | EmptyString => VUndefined end)
  | _ => get_prop a "0"
  end.

Definition opt_prop (a : value) (key : string) : completion value :=
  if is_nullish a then Return VUndefined else get_prop a key.

(** [response.choices?.[0]?.message?.content || ''] *)
Definition first_content (response : value) : completion value :=
  choices <- get_prop response "choices" ;;
  first <- opt_index0 choices ;;
  message <- opt_prop first "message" ;;
  content <- opt_prop message "content" ;;
  Return (js_or content (VStr "")).

Section Client.

Context `{J : JSON}.

(** The network: [fetch] is a transition of its state. *)
Context {Net : Type}.
Variable fetch : request -> Net -> completion response * Net.

Variable cfg : config.

(** The network together with the log of the requests sent so far. *)
Record wire : Type := Wire { net : Net; sent : list request }.

(** [initializeOpenRouter] (its console output is not modelled). *)
Definition initializeOpenRouter : bool := truthy (apiKey cfg).

Definition chat_request (prompt : value) : request :=
  {| url := "https://openrouter.ai/api/v1/chat/completions";
     method := "POST";
     headers :=
       [ ("Authorization", VStr ("Bearer " ++ ToString (apiKey cfg)));
         ("HTTP-Referer", siteUrl cfg);
         ("X-Title", siteTitle cfg);
         ("Content-Type", VStr "application/json") ];
     body :=
       JSON_stringify
         (VObj [ ("model", model cfg);
                 ("messages",
                  VArr [ VObj [ ("role", VStr "user"); ("content", prompt) ] ]) ]) |}.

(** The arrow function handed to the executor. *)
Definition send (prompt : value) : @operation wire :=
  fun w =>
    let req := chat_request prompt in
    let (settled, n) := fetch req (net w) in
    let w1 := Wire n (sent w ++ [req])%list in
    match settled with
    | Throw e => (Throw e, w1)
    | Return res =>
        if negb (ok res)
        then
          let error :=
            VError "Error" ("OpenRouter API error: " ++ ToString (VInt (status res)))
                   [ ("status", VInt (status res)) ] in
          (Throw error, w1)
        else (json res, w1)
    end.

(** The [if (expectJson)] block: [JSON.parse] converts its argument to a
    string; the [catch] clause ignores what was thrown. *)
Definition parse_reply (response : value) : completion value :=
  text <- first_content response ;;
  match JSON_parse (ToString text) with
  | Return parsed => Return parsed
  | Throw _ =>
      found <- text_match text ;;
      match found with
      | Some inner => JSON_parse inner
      | None => Throw parse_failure
      end
  end.

(** [callOpenRouterAPI(prompt, expectJson = false)] *)
Definition callOpenRouterAPI (prompt : value) (expectJsonArg : option bool)
    (w : wire) : @run wire :=
  let expectJson := match expectJsonArg with Some b => b | None => false end in
  let r := retryWithExponentialBackoff (send prompt) None w in
  match outcome r with
  | Throw e => r
  | Return response =>
      if expectJson
      then Run (parse_reply response) (world r) (trace r)
      else Run (first_content response) (world r) (trace r)
  end.

Definition key_missing : bool := negb (truthy (apiKey cfg)).

Definition config_error : value := Error "OpenAI API key not set.".

Definition generateComprehensiveNote
    (courseTitle sectionTitle summary courseContext : value) (w : wire) : @run wire :=
  if key_missing then Run (Throw config_error) w [] else
  let prompt :=
    lines
      [ "You are an expert educational content creator. Given the following course and section, generate a high-quality, one-page comprehensive note for the section. The note should be clear, well-structured, and suitable for deep understanding and revision. Avoid repeating the summary points; instead, expand on them with rich, specific, and educational content. Use engaging language and examples where appropriate.";
        "";
        "Course Title: " ++ ToString courseTitle;
        "Section Title: " ++ ToString sectionTitle;
        "Section Summary (bullets):";
        ToString summary;
        "Course Context (topics, other sections):";
        ToString courseContext;
        "Return only the comprehensive note as a single string, no JSON or markdown formatting." ] in
  callOpenRouterAPI (VStr prompt) None w.

Definition generateCourseContent (title sourceType source : value) (w : wire)
    : @run wire :=
  if key_missing then Run (Throw config_error) w [] else
  let prompt :=
    lines
      [ "You are an expert educational content creator. Create a comprehensive course structure based on the following:";
        "";
        "Title: " ++ ToString title;
        "Source Type: " ++ ToString sourceType;
        "Source: " ++ ToString source;
        "";
        "Generate a detailed course with:";
        "1. A brief summary (2-3 sentences)";
        "2. Category (e.g., Programming, Data Science, Business, Design, etc.)";
        "3. Level (Beginner, Intermediate, or Advanced)";
        "4. 3-5 key topics covered";
        "5. 5-8 lessons with:";
        "   - Title";
        "   - Description (2-3 sentences)";
        "   - Duration (e.g., " ++ dquote ++ "15 min" ++ dquote ++ ", " ++ dquote ++ "30 min" ++ dquote ++ ")";
        "   - Detailed content (3-4 paragraphs)";
        "6. 5-10 quiz questions with:";
        "   - Question text";
        "   - Type (multiple-choice, true-false, or fill-blank)";
        "   - For multiple-choice questions: randomly vary the position of the correct answer (sometimes A, sometimes B, C, or D) to avoid predictable patterns";
        "   - Options (for multiple-choice)";
        "   - Correct answer";
        "   - Explanation";
        "   - Difficulty (easy, medium, or hard)";
        "7. 8-12 flashcards with:";
        "   - Front (question or term)";
        "   - Back (answer or definition)";
        "   - Difficulty level";
        "8. 3-5 comprehensive notes with:";
        "   - Title";
        "   - Content (detailed explanation)";
        "   - Related topics";
        "";
        "Return the response as a valid JSON object." ] in
  callOpenRouterAPI (VStr prompt) (Some true) w.

(** [`- ${c.title}: ${c.summary || 'No summary'}`] *)
Definition course_line (c : value) : completion string :=
  title <- get_prop c "title" ;;
  summary <- get_prop c "summary" ;;
  Return ("- " ++ ToString title ++ ": " ++ ToString (js_or summary (VStr "No summary"))).

(** [coursesContext.map(c => ...)] *)
Fixpoint course_lines (coursesContext : list value) : completion (list string) :=
  match coursesContext with
  | [] => Return []
  | c :: rest =>
      l <- course_line c ;;
      ls <- course_lines rest ;;
      Return (l :: ls)
  end.

(** [coursesContext] is an array. *)
Definition contextInfo (coursesContext : list value) : completion string :=
  if 0 <? Z.of_nat (List.length coursesContext)
  then
    ls <- course_lines coursesContext ;;
    Return (lines [ "The user is enrolled in these courses:"; String.concat nl ls ])
  else Return "The user has not enrolled in any courses yet.".

Definition generateChatResponse (message : value) (coursesContext : list value)
    (w : wire) : @run wire :=
  if key_missing then Run (Throw config_error) w [] else
  match contextInfo coursesContext with
  | Throw e => Run (Throw e) w []
  | Return info =>
      let prompt :=
        lines
          [ "You are a concise AI tutor helping a student learn. " ++ info;
            "";
            "Student's question: " ++ ToString message;
            "";
            "IMPORTANT: Provide a SHORT, DIRECT answer (2-4 sentences max).";
            "- Answer the question directly and concisely";
            "- No lengthy explanations or extra details unless specifically asked";
            "- If the question relates to their enrolled courses, mention it briefly";
            "- Be clear and to the point" ] in
      callOpenRouterAPI (VStr prompt) None w
  end.

(** [generateAdditionalQuizQuestions(courseTitle, courseTopic,
    existingQuestions = 5)] *)
Definition generateAdditionalQuizQuestions
    (courseTitle courseTopic existingQuestionsArg : value) (w : wire) : @run wire :=
  let existingQuestions :=
    match existingQuestionsArg with VUndefined => VInt 5 | given => given end in
  if key_missing then Run (Throw config_error) w [] else
  let prompt :=
    lines
      [ "You are an expert educational content creator. Generate " ++ ToString existingQuestions ++ " new and unique multiple-choice quiz questions for the following course topic. These questions should be different from the existing ones and test deeper understanding.";
        "";
        "Course Title: " ++ ToString courseTitle;
        "Course Topic: " ++ ToString courseTopic;
        "";
        "For each question:";
        "- Provide 4 distinct options (A, B, C, D).";
        "- IMPORTANT: Randomly vary the position of the correct answer (sometimes A, sometimes B, C, or D) to avoid predictable patterns. Do NOT always put the correct answer in the same position.";
        "- Specify the correct answer clearly.";
        "- For each option, provide a detailed explanation of why it is correct or incorrect.";
        "- Provide a specific explanation for why the correct answer is right, referencing the question and options.";
        "- Vary the difficulty level (easy, medium, hard).";
        "";
        "Return the response as a valid JSON object." ] in
  callOpenRouterAPI (VStr prompt) (Some true) w.

End Client.

(* ================================================================== *)
(** ** A reference JSON object *)
(* ================================================================== *)

(** The service is stated over any [JSON]; this instance makes its examples
    executable.  [ecma404_parse] accepts the JSON grammar (ECMA-404), a
    string being represented by its UTF-8 bytes; the text of the SyntaxError
    it throws, which depends on the engine, is a fixed one. *)

Inductive token : Type :=
| TLBrace | TRBrace | TLBracket | TRBracket | TColon | TComma
| TString (s : string)
| TNumber (n : number)
| TTrue | TFalse | TNull.

Definition code (c : ascii) : Z := Z.of_nat (nat_of_ascii c).
Definition char_of (z : Z) : ascii := ascii_of_nat (Z.to_nat z).

Definition is_digit (c : ascii) : bool := (48 <=? code c) && (code c <=? 57).

Definition is_whitespace (c : ascii) : bool :=
  (code c =? 32) || (code c =? 9) || (code c =? 10) || (code c =? 13).

Definition hex_value (c : ascii) : option Z :=
  let n := code c in
  if (48 <=? n) && (n <=? 57) then Some (n - 48)
  else if (65 <=? n) && (n <=? 70) then Some (n - 55)
  else if (97 <=? n) && (n <=? 102) then Some (n - 87)
  else None.

Definition hex4 (a b c d : ascii) : option Z :=
  match hex_value a, hex_value b, hex_value c, hex_value d with
  | Some x3, Some x2, Some x1, Some x0 => Some (((x3 * 16 + x2) * 16 + x1) * 16 + x0)
  | _, _, _, _ => None
  end.

(** The UTF-8 form of a code point (of a lone surrogate too). *)
Definition utf8 (cp : Z) : string :=
  let tail (shift : Z) := char_of (128 + Z.land (Z.shiftr cp shift) 63) in
  if cp <? 128 then String (char_of cp) ""
  else if cp <? 2048 then String (char_of (192 + Z.shiftr cp 6)) (String (tail 0) "")
  else if cp <? 65536
  then String (char_of (224 + Z.shiftr cp 12)) (String (tail 6) (String (tail 0) ""))
  else String (char_of (240 + Z.shiftr cp 18))
         (String (tail 12) (String (tail 6) (String (tail 0) ""))).

(** The characters between the quotes of a string literal: as they are, or
    the code unit an escape sequence denotes. *)
Inductive unit_ : Type :=
| Raw (c : ascii)
| Escaped (cu : Z).

Definition simple_escape (c : ascii) : option Z :=
  let n := code c in
  if n =? 34 then Some 34            (* the double quote *)
  else if n =? 92 then Some 92       (* the backslash *)
  else if n =? 47 then Some 47       (* the slash *)
  else if n =? 98 then Some 8        (* b *)
  else if n =? 102 then Some 12      (* f *)
  else if n =? 110 then Some 10      (* n *)
  else if n =? 114 then Some 13      (* r *)
  else if n =? 116 then Some 9       (* t *)
  else None.

Definition more {A : Type} (x : A) (n : nat) (r : option (list A * nat))
    : option (list A * nat) :=
  match r with
  | Some (xs, m) => Some (x :: xs, (n + m)%nat)
  | None => None
  end.

(** [lex_string s], for [s] the text after an opening quote: the units up to
    the closing quote and the number of characters read, that quote
    included. *)
Fixpoint lex_string (s : string) : option (list unit_ * nat) :=
  match s with
  | EmptyString => None
  | String c s1 =>
      if code c =? 34 then Some ([], 1%nat)
      else if code c =? 92 then
        match s1 with
        | EmptyString => None
        | String e s2 =>
            match simple_escape e with
            | Some cu => more (Escaped cu) 2 (lex_string s2)
            | None =>
                if code e =? 117 then     (* u and four hexadecimal digits *)
                  match s2 with
                  | String h3 (String h2 (String h1 (String h0 s6))) =>
                      match hex4 h3 h2 h1 h0 with
                      | Some cu => more (Escaped cu) 6 (lex_string s6)
                      | None => None
                      end
                  | _ => None
                  end
                else None
            end
        end
      else if code c <? 32 then None
      else more (Raw c) 1 (lex_string s1)
  end.

Definition is_high_surrogate (cu : Z) : bool := (55296 <=? cu) && (cu <=? 56319).
Definition is_low_surrogate (cu : Z) : bool := (56320 <=? cu) && (cu <=? 57343).

(** The bytes of a string value; two escapes that form a surrogate pair
    denote one code point. *)
Fixpoint encode_units (us : list unit_) : string :=
  match us with
  | [] => ""
  | Raw c :: rest => String c (encode_units rest)
  | Escaped hi :: rest =>
      match rest with
      | Escaped lo :: rest' =>
          if is_high_surrogate hi && is_low_surrogate lo
          then utf8 (65536 + (hi - 55296) * 1024 + (lo - 56320)) ++ encode_units rest'
          else utf8 hi ++ encode_units rest
      | _ => utf8 hi ++ encode_units rest
      end
  end.

(** The longest prefix of digits, and what follows it. *)
Fixpoint span_digits (s : string) : string * string :=
  match s with
  | String c s' =>
      if is_digit c then let (ds, rest) := span_digits s' in (String c ds, rest)
      else ("", s)
  | EmptyString => ("", "")
  end.

Fixpoint digits_value (acc : Z) (ds : string) : Z :=
  match ds with
  | EmptyString => acc
  | String c ds' => digits_value (acc * 10 + (code c - 48)) ds'
  end.

Definition starts_with (p : ascii -> bool) (s : string) : bool :=
  match s with
  | String c _ => p c
  | EmptyString => false
  end.

Definition tail (s : string) : string :=
  match s with
  | String _ s' => s'
  | EmptyString => ""
  end.

(** A number literal at the start of [s]: [-? int frac? exp?].  The value
    and the number of characters read. *)
Definition lex_number (s : string) : option (number * nat) :=
  let negative := starts_with (fun c => code c =? 45) s in
  let s1 := if negative then tail s else s in
  let (int, s2) := span_digits s1 in
  if (String.length int =? 0)%nat then None
  else if (1 <? String.length int)%nat && starts_with (fun c => code c =? 48) int then None
  else
    let with_exponent (frac s3 : string) : option (number * nat) :=
      let m := digits_value 0 (int ++ frac) in
      let m := if negative then - m else m in
      let scale := - Z.of_nat (String.length frac) in
      if starts_with (fun c => (code c =? 101) || (code c =? 69)) s3 then
        let s4 := tail s3 in
        let minus := starts_with (fun c => code c =? 45) s4 in
        let plus := starts_with (fun c => code c =? 43) s4 in
        let s5 := if minus || plus then tail s4 else s4 in
        let (ex, s6) := span_digits s5 in
        if (String.length ex =? 0)%nat then None
        else
          let e := digits_value 0 ex in
          Some (canonical (Dec m (scale + (if minus then - e else e))),
                (String.length s - String.length s6)%nat)
      else Some (canonical (Dec m scale), (String.length s - String.length s3)%nat) in
    if starts_with (fun c => code c =? 46) s2 then
      let (frac, s3) := span_digits (tail s2) in
      if (String.length frac =? 0)%nat then None else with_exponent frac s3
    else with_exponent "" s2.

Definition emit (t : token) (r : option (list token)) : option (list token) :=
  option_map (cons t) r.

(** The tokens of a text.  [skip] counts the characters that belong to the
    token emitted last and are still to be passed over. *)
Fixpoint lex (skip : nat) (s : string) : option (list token) :=
  match s with
  | EmptyString => Some []
  | String c s' =>
      match skip with
      | S k => lex k s'
      | O =>
          let n := code c in
          if is_whitespace c then lex 0 s'
          else if n =? 123 then emit TLBrace (lex 0 s')
          else if n =? 125 then emit TRBrace (lex 0 s')
          else if n =? 91 then emit TLBracket (lex 0 s')
          else if n =? 93 then emit TRBracket (lex 0 s')
          else if n =? 58 then emit TColon (lex 0 s')
          else if n =? 44 then emit TComma (lex 0 s')
          else if n =? 34 then
            match lex_string s' with
            | Some (us, k) => emit (TString (encode_units us)) (lex k s')
            | None => None
            end
          else if (n =? 45) || is_digit c then
            match lex_number s with
            | Some (x, k) => emit (TNumber x) (lex (k - 1) s')
            | None => None
            end
          else
            match strip_prefix "true" s, strip_prefix "false" s, strip_prefix "null" s with
            | Some _, _, _ => emit TTrue (lex 3 s')
            | _, Some _, _ => emit TFalse (lex 4 s')
            | _, _, Some _ => emit TNull (lex 3 s')
            | None, None, None => None
            end
      end
  end.

(** [set_prop key v props]: defining a property that exists replaces its
    value and keeps its place. *)
Fixpoint set_prop (key : string) (v : value) (props : list (string * value))
    : list (string * value) :=
  match props with
  | [] => [(key, v)]
  | (k, x) :: rest =>
      if String.eqb k key then (k, v) :: rest else (k, x) :: set_prop key v rest
  end.

(** The containers that are open, innermost first: an array with its
    elements so far (last first), an object with its members so far, and the
    key whose value is being read. *)
Inductive frame : Type :=
| FArr (elems : list value)
| FObj (members : list (string * value))
| FKey (key : string).

Inductive expecting : Type :=
| XValue          (* a value *)
| XValueOrEnd     (* after an opening bracket: a value or the closing one *)
| XKeyOrEnd       (* after an opening brace: a key or the closing one *)
| XKey            (* after a comma in an object: a key *)
| XColon          (* after a key *)
| XSeparator      (* after a value in a container: a comma or the closer *)
| XDone (v : value).   (* the text's value is complete *)

Record parser : Type := Parser { stack : list frame; expect : expecting }.

(** A value is complete: it is the text's value, an array's next element or
    the value of the pending key. *)
Definition complete (v : value) (st : list frame) : option parser :=
  match st with
  | [] => Some (Parser [] (XDone v))
  | FArr elems :: rest => Some (Parser (FArr (v :: elems) :: rest) XSeparator)
  | FKey key :: FObj members :: rest =>
      Some (Parser (FObj (set_prop key v members) :: rest) XSeparator)
  | _ => None
  end.

Definition close_array (st : list frame) : option parser :=
  match st with
  | FArr elems :: rest => complete (VArr (rev elems)) rest
  | _ => None
  end.

Definition close_object (st : list frame) : option parser :=
  match st with
  | FObj members :: rest => complete (VObj members) rest
  | _ => None
  end.

Definition start_value (t : token) (st : list frame) : option parser :=
  match t with
  | TLBracket => Some (Parser (FArr [] :: st) XValueOrEnd)
  | TLBrace => Some (Parser (FObj [] :: st) XKeyOrEnd)
  | TString s => complete (VStr s) st
  | TNumber n => complete (VNum n) st
  | TTrue => complete (VBool true) st
  | TFalse => complete (VBool false) st
  | TNull => complete VNull st
  | TRBrace | TRBracket | TColon | TComma => None
  end.

Definition step (p : parser) (t : token) : option parser :=
  match expect p, t with
  | XValue, _ => start_value t (stack p)
  | XValueOrEnd, TRBracket => close_array (stack p)
  | XValueOrEnd, _ => start_value t (stack p)
  | XKeyOrEnd, TRBrace => close_object (stack p)
  | (XKeyOrEnd | XKey), TString key => Some (Parser (FKey key :: stack p) XColon)
  | XColon, TColon => Some (Parser (stack p) XValue)
  | XSeparator, TComma =>
      match stack p with
      | FArr _ :: _ => Some (Parser (stack p) XValue)
      | FObj _ :: _ => Some (Parser (stack p) XKey)
      | _ => None
      end
  | XSeparator, TRBracket => close_array (stack p)
  | XSeparator, TRBrace => close_object (stack p)
  | _, _ => None
  end.

Fixpoint steps (p : parser) (ts : list token) : option parser :=
  match ts with
  | [] => Some p
  | t :: rest =>
      match step p t with
      | Some p' => steps p' rest
      | None => None
      end
  end.

Definition malformed : value := SyntaxError "Unexpected token or end of JSON input".

Definition ecma404_parse (text : string) : completion value :=
  match lex 0 text with
  | Some ts =>
      match steps (Parser [] XValue) ts with
      | Some (Parser [] (XDone v)) => Return v
      | _ => Throw malformed
      end
  | None => Throw malformed
  end.

Definition hex_digit (z : Z) : ascii :=
  if z <? 10 then char_of (48 + z) else char_of (87 + z).

(** QuoteJSONString, for well-formed strings. *)
Fixpoint quote_body (s : string) : string :=
  match s with
  | EmptyString => ""
  | String c s' =>
      let n := code c in
      (if n =? 34 then "\" ++ dquote
       else if n =? 92 then "\\"
       else if n =? 8 then "\b"
       else if n =? 12 then "\f"
       else if n =? 10 then "\n"
       else if n =? 13 then "\r"
       else if n =? 9 then "\t"
       else if n <? 32
       then "\u00" ++ String (hex_digit (n / 16)) (String (hex_digit (n mod 16)) "")
       else String c "")
      ++ quote_body s'
  end.

Definition quote (s : string) : string := dquote ++ quote_body s ++ dquote.

(** SerializeJSONProperty without replacer and indentation; [None] stands
    for [undefined].  An error object has its assigned properties only: its
    message is not enumerable. *)
Fixpoint serialize (v : value) : option string :=
  let fix members (props : list (string * value)) : list string :=
    match props with
    | [] => []
    | (k, x) :: rest =>
        match serialize x with
        | Some t => (quote k ++ ":" ++ t) :: members rest
        | None => members rest
        end
    end in
  match v with
  | VUndefined => None
  | VNull => Some "null"
  | VBool true => Some "true"
  | VBool false => Some "false"
  | VNum n => Some (Number_toString n)
  | VStr s => Some (quote s)
  | VArr elems =>
      Some ("[" ++ String.concat ","
                     (map (fun x => match serialize x with
                                    | Some t => t
                                    | None => "null"
                                    end) elems) ++ "]")
  | VObj props => Some ("{" ++ String.concat "," (members props) ++ "}")
  | VError _ _ props => Some ("{" ++ String.concat "," (members props) ++ "}")
  end.

Definition ecma_stringify (v : value) : value :=
  match serialize v with
  | Some s => VStr s
  | None => VUndefined
  end.

Definition ecma_JSON : JSON :=
  {| JSON_parse := ecma404_parse; JSON_stringify := ecma_stringify |}.

(* ================================================================== *)
(** ** Mock operations and providers *)
(* ================================================================== *)

(** An operation that fails on every invocation with the given status; its
    world counts the invocations, and the error's message tells them
    apart. *)
Definition failing (code : Z) : @operation nat :=
  fun n =>
    (Throw (VError "Error" ("failure " ++ digits (Z.of_nat n)) [ ("status", VInt code) ]),
     S n).

(** An operation that fails without a status field. *)
Definition offline : @operation nat :=
  fun n => (Throw (Error "getaddrinfo ENOTFOUND openrouter.ai"), S n).

(** An operation that fails with status 503 until its [k]-th invocation,
    which succeeds. *)
Definition flaky (k : nat) (result : value) : @operation nat :=
  fun n => if (S n <? k)%nat then failing 503 n else (Return result, S n).

(** A provider that answers from a script, one response per request, and
    refuses the connection when the script is over. *)
Definition scripted (req : request) (script : list response)
    : completion response * list response :=
  match script with
  | res :: rest => (Return res, rest)
  | [] => (Throw (TypeError "fetch failed"), [])
  end.

(** A success envelope with one choice. *)
Definition envelope (content : value) : value :=
  VObj [ ("id", VStr "gen-1");
         ("choices",
          VArr [ VObj [ ("index", VInt 0);
                        ("message",
                         VObj [ ("role", VStr "assistant"); ("content", content) ]) ] ]) ].

Definition http_ok (payload : value) : response := Response true 200 (Return payload).

Definition http_error (code : Z) : response :=
  Response false code (Return (VObj [ ("error", VStr "upstream") ])).

Definition test_config : config :=
  load_config (fun name => if String.eqb name "OPENAI_API_KEY" then Some "sk-test" else None).

Definition unset_config : config := load_config (fun _ => None).

(** The text [{"a":1}], and the same inside a fenced block. *)
Definition a1_text : string := "{" ++ dquote ++ "a" ++ dquote ++ ":1}".
Definition a1_fenced : string := "```json" ++ nl ++ a1_text ++ nl ++ "```".
Definition a1_object : value := VObj [ ("a", VInt 1) ].

(** Replies that try the pattern: two blocks, a block whose text is not
    JSON, and a carriage return in front of each newline. *)
Definition crlf : string := String "013"%char nl.

Definition two_blocks : string :=
  "First:" ++ nl ++ "```json" ++ nl ++ "[1]" ++ nl ++ "```" ++ nl
  ++ "Second:" ++ nl ++ "```json" ++ nl ++ "[2]" ++ nl ++ "```".

Definition broken_block : string :=
  "Here you go:" ++ nl ++ "```json" ++ nl ++ "{oops" ++ nl ++ "```".

(* ================================================================== *)
(** ** Further observations and mocks *)
(* ================================================================== *)

(** The time a run spends waiting, in milliseconds. *)
Definition total_delay (tr : list event) : Z := fold_right Z.add 0 (delays tr).

(** An outcome the executor would not retry: a result, or an error whose
    status is not one of 429, 500 and 503. *)
Definition final_outcome (c : completion value) : Prop :=
  match c with
  | Return _ => True
  | Throw e => ~ retryable_status e
  end.

(** An operation that settles as a script says, one entry per invocation. *)
Definition replay : @operation (list (completion value)) :=
  fun script =>
    match script with
    | settled :: rest => (settled, rest)
    | [] => (Throw (Error "nothing left to replay"), [])
    end.

(** A provider that gives the same response to every request; its state
    counts the requests. *)
Definition steady (res : response) (req : request) (n : nat)
    : completion response * nat :=
  (Return res, S n).

(** A provider that cannot be reached. *)
Definition unreachable (req : request) (n : nat) : completion response * nat :=
  (Throw (VError "FetchError" "connect ECONNREFUSED" [ ("code", VStr "ECONNREFUSED") ]),
   S n).

(** A success response whose body is not JSON: [res.json()] rejects. *)
Definition http_garbled : response :=
  Response true 200 (Throw (SyntaxError "Unexpected token < in JSON at position 0")).


(** The error the arrow function makes of a response without success
    status: [new Error(`OpenRouter API error: ${res.status}`)] with
    [error.status = res.status]. *)
Definition http_failure (res : response) : value :=
  VError "Error" ("OpenRouter API error: " ++ ToString (VInt (status res)))
         [ ("status", VInt (status res)) ].

(** [v.key] for a value that is an object: [undefined] stands for a missing
    property. *)
Definition read (v : value) (key : string) : value :=
  match get_prop v key with
  | Return x => x
  | Throw _ => VUndefined
  end.

(** A reply whose content is a list of parts instead of a string. *)
Definition parts_envelope : value :=
  envelope (VArr [ VObj [ ("type", VStr "text"); ("text", VStr a1_text) ] ]).


(** The line of the chat prompt for a course that is an object:
    [`- ${c.title}: ${c.summary || 'No summary'}`]. *)
Definition course_text (c : value) : string :=
  "- " ++ ToString (read c "title") ++ ": "
  ++ ToString (js_or (read c "summary") (VStr "No summary")).


(* ================================================================== *)
(** ** The sign-in forms (components/AuthModal.tsx and the AuthPage
       component) *)
(* ================================================================== *)

(** The two components keep the same state and define the same
    [validateForm] and [handleInputChange]; their [handleSubmit] differs in
    what follows [setToken].  A handler is a function of the state of the
    render it belongs to and returns the state after its updates; the
    functions of [../lib/api] and the component's callbacks are parameters.
    [e.preventDefault()] and the console are not modelled. *)
Module Auth.

Definition byte (c : ascii) : Z := Z.of_nat (nat_of_ascii c).

(** The UTF-16 code units of a string, from its UTF-8 bytes: one unit for a
    sequence of one to three bytes, a surrogate pair for one of four.  (A
    byte that starts no complete sequence counts as a unit of its own.) *)
Fixpoint code_units (s : string) : list Z :=
  match s with
  | EmptyString => []
  | String b0 s1 =>
      let n0 := byte b0 in
      if n0 <? 192 then n0 :: code_units s1
      else if n0 <? 224 then
        match s1 with
        | String b1 s2 => ((n0 - 192) * 64 + (byte b1 - 128)) :: code_units s2
        | _ => n0 :: code_units s1
        end
      else if n0 <? 240 then
        match s1 with
        | String b1 (String b2 s3) =>
            ((n0 - 224) * 4096 + (byte b1 - 128) * 64 + (byte b2 - 128)) :: code_units s3
        | _ => n0 :: code_units s1
        end
      else
        match s1 with
        | String b1 (String b2 (String b3 s4)) =>
            let cp := (n0 - 240) * 262144 + (byte b1 - 128) * 4096
                      + (byte b2 - 128) * 64 + (byte b3 - 128) in
            (55296 + (cp - 65536) / 1024) :: (56320 + (cp - 65536) mod 1024)
            :: code_units s4
        | _ => n0 :: code_units s1
        end
  end.

(** [s.length] *)
Definition js_length (s : string) : Z := Z.of_nat (List.length (code_units s)).

(** The class [\s] of a pattern: white space and line terminators. *)
Definition is_space (c : Z) : bool :=
  (c =? 9) || (c =? 10) || (c =? 11) || (c =? 12) || (c =? 13) || (c =? 32)
  || (c =? 160) || (c =? 5760) || ((8192 <=? c) && (c <=? 8202))
  || (c =? 8232) || (c =? 8233) || (c =? 8239) || (c =? 8287) || (c =? 12288)
  || (c =? 65279).

(** The patterns the forms use: literal characters and [\S], alone or under
    a greedy [+]. *)
Inductive atom : Type :=
| Char (c : Z)
| NonSpace.

Inductive piece : Type :=
| One (a : atom)
| Plus (a : atom).

Definition accepts (a : atom) (c : Z) : bool :=
  match a with
  | Char d => c =? d
  | NonSpace => negb (is_space c)
  end.

(** A match attempt at the start of [s], by backtracking: under [+] one
    more character is tried before the rest of the pattern. *)
Fixpoint match_here (re : list piece) (s : list Z) {struct s} : bool :=
  match re with
  | [] => true
  | One a :: re' =>
      match s with
      | c :: s' => accepts a c && match_here re' s'
      | [] => false
      end
  | Plus a :: re' =>
      match s with
      | c :: s' => accepts a c && (match_here re s' || match_here re' s')
      | [] => false
      end
  end.

(** [re.test(s)] for a pattern without flags: the attempts start at index 0
    and move right. *)
Fixpoint search (re : list piece) (s : list Z) : bool :=
  match_here re s ||
  match s with
  | [] => false
  | _ :: s' => search re s'
  end.

Definition regex_test (re : list piece) (s : string) : bool := search re (code_units s).

(** [/\S+@\S+\.\S+/] *)
Definition email_pattern : list piece :=
  [ Plus NonSpace; One (Char 64); Plus NonSpace; One (Char 46); Plus NonSpace ].

(** The inputs of the form, by their [name] attribute. *)
Inductive field : Type := FName | FEmail | FPassword | FConfirmPassword.

Definition field_name (f : field) : string :=
  match f with
  | FName => "name"
  | FEmail => "email"
  | FPassword => "password"
  | FConfirmPassword => "confirmPassword"
  end.

Record form : Type := Form {
  name : string;
  email : string;
  password : string;
  confirmPassword : string
}.

(** The state of the component; [errors] is an object from field names to
    messages. *)
Record state : Type := State {
  isSignUp : bool;
  formData : form;
  isLoading : bool;
  errors : list (string * value)
}.

Definition initial : state := State false (Form "" "" "" "") false [].

Definition with_errors (st : state) (errs : list (string * value)) : state :=
  State (isSignUp st) (formData st) (isLoading st) errs.

Definition with_loading (st : state) (loading : bool) : state :=
  State (isSignUp st) (formData st) loading (errors st).

(** [validateForm]: the errors it hands to [setErrors], and its result. *)
Definition validateForm (st : state) : list (string * value) * bool :=
  let fd := formData st in
  let newErrors : list (string * value) := [] in
  let newErrors :=
    if String.eqb (email fd) "" then set_prop "email" (VStr "Email is required") newErrors
    else if negb (regex_test email_pattern (email fd))
    then set_prop "email" (VStr "Email is invalid") newErrors
    else newErrors in
  let newErrors :=
    if String.eqb (password fd) ""
    then set_prop "password" (VStr "Password is required") newErrors
    else if js_length (password fd) <? 6
    then set_prop "password" (VStr "Password must be at least 6 characters") newErrors
    else newErrors in
  let newErrors :=
    if isSignUp st then
      let newErrors :=
        if String.eqb (name fd) "" then set_prop "name" (VStr "Name is required") newErrors
        else newErrors in
      if negb (String.eqb (password fd) (confirmPassword fd))
      then set_prop "confirmPassword" (VStr "Passwords do not match") newErrors
      else newErrors
    else newErrors in
  (newErrors, Z.of_nat (List.length newErrors) =? 0).

(** [{ ...prev, [name]: value }] on the form. *)
Definition set_field (f : field) (v : string) (fd : form) : form :=
  match f with
  | FName => Form v (email fd) (password fd) (confirmPassword fd)
  | FEmail => Form (name fd) v (password fd) (confirmPassword fd)
  | FPassword => Form (name fd) (email fd) v (confirmPassword fd)
  | FConfirmPassword => Form (name fd) (email fd) (password fd) v
  end.

Definition get_field (f : field) (fd : form) : string :=
  match f with
  | FName => name fd
  | FEmail => email fd
  | FPassword => password fd
  | FConfirmPassword => confirmPassword fd
  end.

(** [errors[key]] *)
Definition error_of (key : string) (errs : list (string * value)) : value :=
  match lookup key errs with
  | Some v => v
  | None => VUndefined
  end.

(** [handleInputChange], for the change of input [f] to [v]. *)
Definition handleInputChange (f : field) (v : string) (st : state) : state :=
  let fd := set_field f v (formData st) in
  let errs :=
    if truthy (error_of (field_name f) (errors st))
    then set_prop (field_name f) (VStr "") (errors st)
    else errors st in
  State (isSignUp st) fd (isLoading st) errs.

(** The link under the form: [setIsSignUp(!isSignUp)]. *)
Definition toggleMode (st : state) : state :=
  State (negb (isSignUp st)) (formData st) (isLoading st) (errors st).

Section Submit.

Context {World : Type}.

(** An asynchronous call or a callback: it acts on the world and settles. *)
Definition action : Type := World -> completion value * World.

Definition andThen (m : action) (k : value -> action) : action :=
  fun w =>
    match m w with
    | (Return a, w1) => k a w1
    | (Throw e, w1) => (Throw e, w1)
    end.

Definition evaluate (c : completion value) : action := fun w => (c, w).

(** [authApi.signup], [authApi.login] and [setToken] of [../lib/api]. *)
Variable signup : value -> action.
Variable login : value -> action.
Variable setToken : value -> action.

(** What follows [setToken(response.token)] in the [try] block. *)
Variable afterwards : value -> action.

(** The [try] block. *)
Definition authenticate (st : state) : action :=
  let fd := formData st in
  andThen
    (if isSignUp st
     then signup (VObj [ ("name", VStr (name fd)); ("email", VStr (email fd));
                         ("password", VStr (password fd)) ])
     else login (VObj [ ("email", VStr (email fd)); ("password", VStr (password fd)) ]))
    (fun response =>
       andThen (evaluate (get_prop response "token")) (fun token =>
       andThen (setToken token) (fun _ => afterwards response))).

(** [error instanceof Error ? error.message : '...'] *)
Definition failure_message (error : value) : value :=
  match error with
  | VError _ _ _ => read error "message"
  | _ => VStr "Authentication failed. Please try again."
  end.

(** [handleSubmit]: the state after all its updates, and the world. *)
Definition handleSubmit (st : state) (w : World) : state * World :=
  let (newErrors, valid) := validateForm st in
  let st1 := with_errors st newErrors in
  if negb valid then (st1, w)
  else
    match authenticate st w with
    | (Return _, w1) => (with_loading st1 false, w1)
    | (Throw error, w1) =>
        (with_loading (with_errors st1 [ ("email", failure_message error) ]) false, w1)
    end.

End Submit.

(** In AuthModal: [onAuth(response.user); onClose();] with the callbacks of
    the component's properties. *)
Definition modal_afterwards {World : Type} (onAuth : value -> @action World)
    (onClose : @action World) (response : value) : @action World :=
  andThen (evaluate (get_prop response "user")) (fun user =>
  andThen (onAuth user) (fun _ => onClose)).


(** One or more characters, none of them white space. *)
Definition word (u : list Z) : Prop :=
  u <> [] /\ Forall (fun c => is_space c = false) u.

(** Somewhere in the text: a word, [@], a word, a dot, a word. *)
Definition has_address (u : list Z) : Prop :=
  exists pre a b c post,
    u = (pre ++ a ++ [64] ++ b ++ [46] ++ c ++ post)%list /\ word a /\ word b /\ word c.

(** What the form has to satisfy. *)
Definition acceptable (st : state) : Prop :=
  has_address (code_units (email (formData st))) /\
  6 <= js_length (password (formData st)) /\
  (isSignUp st = true ->
   name (formData st) <> "" /\ password (formData st) = confirmPassword (formData st)).

(** A world for examples: the log of what was called, in order. *)
Inductive called : Type :=
| Signup (payload : value)
| Login (payload : value)
| SetToken (token : value)
| OnAuth (user : value)
| OnClose.

Definition logged (c : called) (settled : completion value) : @action (list called) :=
  fun log => (settled, (log ++ [c])%list).

Definition a_session : value :=
  VObj [ ("token", VStr "t0k3n"); ("user", VObj [ ("name", VStr "Ada") ]) ].

(** The modal with an API that accepts every login and refuses every
    sign-up. *)
Definition modal_submit : state -> list called -> state * list called :=
  handleSubmit
    (fun payload => logged (Signup payload) (Throw (Error "Email already registered")))
    (fun payload => logged (Login payload) (Return a_session))
    (fun token => logged (SetToken token) (Return VUndefined))
    (modal_afterwards (fun user => logged (OnAuth user) (Return VUndefined))
                      (logged OnClose (Return VUndefined))).

End Auth.

(* ================================================================== *)
(** * Properties *)
(* ================================================================== *)

(** ** Numbers, status fields and the retry decision *)

Lemma strict_eq_num_VInt (c n : Z) : strict_eq_num (VInt c) n = (c =? n).
Proof.
  unfold strict_eq_num, VInt, number_eqb, num_of_Z; simpl.
  now rewrite !Z.mul_1_r.
Qed.

Lemma isRetryable_true (error : value) :
  retryable_status error -> isRetryable error = Return true.
Proof.
  unfold retryable_status, status_is, isRetryable.
  intros [H | [H | H]]; destruct H as (s & Hs & Heq); rewrite Hs; simpl;
    rewrite ?Heq; repeat (destruct (strict_eq_num s _); try reflexivity).
Qed.

Lemma isRetryable_false (error : value) :
  no_retryable_status error -> isRetryable error = Return false.
Proof.
  unfold no_retryable_status, isRetryable.
  intros (s & Hs & [-> | (H429 & H500 & H503)]); rewrite Hs; simpl.
  - reflexivity.
  - now rewrite H503, H429, H500.
Qed.

(** What the decision computes for an error tagged with an HTTP status. *)
Lemma isRetryable_tagged (name message : string) (code : Z) :
  isRetryable (VError name message [ ("status", VInt code) ])
  = Return ((code =? 503) || (code =? 429) || (code =? 500)).
Proof.
  assert (Hget : get_prop (VError name message [ ("status", VInt code) ]) "status"
                 = Return (VInt code)) by reflexivity.
  unfold isRetryable. rewrite Hget. cbn [bind]. rewrite !strict_eq_num_VInt.
  destruct (code =? 503); [reflexivity |].
  destruct (code =? 429); reflexivity.
Qed.

(** The status is read off the thrown value itself: for [null] and
    [undefined] the read fails, and the TypeError takes the place of the
    value that was thrown. *)
Lemma isRetryable_nullish (error : value) :
  is_nullish error = true -> exists message, isRetryable error = Throw (TypeError message).
Proof.
  destruct error; simpl; try discriminate; intros _; eexists; reflexivity.
Qed.

(** ** The shape of a run *)

Lemma delayMs_values : delayMs 1 = 1000 /\ delayMs 2 = 2000 /\ delayMs 3 = 4000.
Proof. repeat split; reflexivity. Qed.

Lemma invocations_app (a b : list event) :
  invocations (a ++ b) = invocations a + invocations b.
Proof.
  induction a as [| [| ms] a IH]; cbn [app invocations]; rewrite ?IH; lia.
Qed.

Lemma delays_app (a b : list event) : delays (a ++ b) = (delays a ++ delays b)%list.
Proof.
  induction a as [| [| ms] a IH]; simpl; rewrite ?IH; reflexivity.
Qed.

Lemma invocations_retry_prefix (k : nat) :
  forall attempt, invocations (retry_prefix attempt k) = Z.of_nat k.
Proof.
  induction k as [| k IH]; intros attempt; [reflexivity |].
  cbn [retry_prefix invocations]. rewrite IH. lia.
Qed.

Lemma invocations_backoff_trace (attempt : Z) (k : nat) :
  invocations (backoff_trace attempt k) = Z.of_nat k.
Proof.
  destruct k as [| k]; [reflexivity |].
  unfold backoff_trace. rewrite invocations_app, invocations_retry_prefix.
  cbn [invocations]. lia.
Qed.

(** The delays of a run of [k] invocations: one after each attempt but the
    last, the one after attempt [j] being [delayMs j]. *)
Lemma delays_retry_prefix (k : nat) :
  forall attempt,
    delays (retry_prefix attempt k)
    = map (fun j => delayMs (attempt + Z.of_nat j)) (seq 0 k).
Proof.
  induction k as [| k IH]; intros attempt; [reflexivity |].
  cbn [retry_prefix delays seq map]. rewrite IH, <- seq_shift, map_map.
  f_equal; [f_equal; lia |].
  apply map_ext; intros j. f_equal. lia.
Qed.

Lemma delays_backoff_trace (attempt : Z) (k : nat) :
  delays (backoff_trace attempt k)
  = map (fun j => delayMs (attempt + Z.of_nat j)) (seq 0 (k - 1)).
Proof.
  destruct k as [| k]; [reflexivity |].
  unfold backoff_trace. rewrite delays_app, delays_retry_prefix; simpl.
  now rewrite app_nil_r, Nat.sub_0_r.
Qed.


Section ExecutorFacts.

Context {World : Type}.
Variable apiCall : @operation World.
Variable maxRetries : Z.

(** The counter of the recursion and the loop's guard agree: from
    [attempt = 1] and [remaining = maxRetries], the equation
    [attempt + remaining = maxRetries + 1] is kept by every iteration, so
    that no iteration is left exactly when [attempt <= maxRetries] fails. *)
Lemma remaining_guard (remaining : nat) (attempt : Z) :
  attempt + Z.of_nat remaining = maxRetries + 1 ->
  (remaining = O <-> ~ attempt <= maxRetries).
Proof. lia. Qed.

Lemma settles_shift (i : nat) (w : World) :
  settles apiCall i (snd (apiCall w)) = settles apiCall (S i) w.
Proof. reflexivity. Qed.

(** While attempts fail with a retryable status and are not the last one
    allowed, the loop waits and goes on. *)
Lemma attempts_skip_failures (k : nat) :
  forall remaining attempt lastError w tr,
    (k < remaining)%nat ->
    attempt + Z.of_nat remaining = maxRetries + 1 ->
    (forall i, (i < k)%nat ->
       exists e, settles apiCall i w = Throw e /\ retryable_status e) ->
    exists lastError',
      attempts apiCall maxRetries remaining attempt lastError w tr
      = attempts apiCall maxRetries (remaining - k) (attempt + Z.of_nat k)
          lastError' (world_after apiCall k w) (tr ++ retry_prefix attempt k).
Proof.
  induction k as [| k IH]; intros remaining attempt lastError w tr Hlt Hinv Hfail.
  - exists lastError. simpl.
    now rewrite Nat.sub_0_r, Z.add_0_r, app_nil_r.
  - destruct remaining as [| remaining]; [lia |].
    destruct (Hfail O) as (e & He & Hre); [lia |].
    unfold settles in He; simpl in He.
    cbn [attempts].
    destruct (apiCall w) as [settled w1] eqn:Hcall; simpl in He; subst settled.
    rewrite (isRetryable_true e Hre).
    replace (attempt =? maxRetries) with false by (symmetry; apply Z.eqb_neq; lia).
    destruct (IH remaining (attempt + 1) e w1
                ((tr ++ [Invoke]) ++ [Sleep (delayMs attempt)])%list)
      as (le & Heq).
    + lia.
    + lia.
    + intros i Hi. destruct (Hfail (S i)) as (e' & He' & Hre'); [lia |].
      exists e'. split; [| exact Hre'].
      rewrite <- He'. unfold settles. simpl. now rewrite Hcall.
    + exists le. rewrite Heq.
      cbn [world_after retry_prefix Nat.sub]. rewrite Hcall. simpl snd.
      f_equal; [lia |].
      now rewrite <- !app_assoc.
Qed.

(** The trace only grows, and a run with at least one iteration calls the
    operation first. *)
Lemma attempts_trace_extends (remaining : nat) :
  forall attempt lastError w tr,
    exists ext,
      trace (attempts apiCall maxRetries remaining attempt lastError w tr)
      = (tr ++ ext)%list /\
      (remaining <> O -> exists ext', ext = Invoke :: ext').
Proof.
  induction remaining as [| remaining IH]; intros attempt lastError w tr.
  - exists []. simpl. split; [now rewrite app_nil_r | congruence].
  - cbn [attempts]. destruct (apiCall w) as [settled w1].
    assert (Hstop : forall c,
               exists ext,
                 trace (Run c w1 (tr ++ [Invoke])) = (tr ++ ext)%list /\
                 (S remaining <> O -> exists ext', ext = Invoke :: ext')).
    { intros c. exists [Invoke]. split; [reflexivity | eauto]. }
    destruct settled as [result | error]; [apply Hstop |].
    destruct (isRetryable error) as [[|] | e]; try apply Hstop.
    destruct (attempt =? maxRetries); [apply Hstop |].
    destruct (IH (attempt + 1) error w1
                ((tr ++ [Invoke]) ++ [Sleep (delayMs attempt)])%list)
      as (ext & Hext & _).
    exists (Invoke :: Sleep (delayMs attempt) :: ext). split; [| eauto].
    rewrite Hext. now rewrite <- !app_assoc.
Qed.

(** Every run is a sequence of invocations with the delays of the policy
    between them, and the world is the one these invocations leave. *)
Lemma attempts_shape (remaining : nat) :
  forall attempt lastError w tr,
    attempt + Z.of_nat remaining = maxRetries + 1 ->
    exists k,
      (k <= remaining)%nat /\ (remaining <> O -> k <> O) /\
      trace (attempts apiCall maxRetries remaining attempt lastError w tr)
      = (tr ++ backoff_trace attempt k)%list /\
      world (attempts apiCall maxRetries remaining attempt lastError w tr)
      = world_after apiCall k w.
Proof.
  induction remaining as [| remaining IH]; intros attempt lastError w tr Hinv.
  - exists O. simpl. rewrite app_nil_r. repeat split; auto.
  - cbn [attempts]. destruct (apiCall w) as [settled w1] eqn:Hcall.
    assert (Hstop : forall c,
               exists k,
                 (k <= S remaining)%nat /\ (S remaining <> O -> k <> O) /\
                 trace (Run c w1 (tr ++ [Invoke]))
                 = (tr ++ backoff_trace attempt k)%list /\
                 world (Run c w1 (tr ++ [Invoke])) = world_after apiCall k w).
    { intros c. exists 1%nat. simpl. rewrite Hcall. repeat split; auto; lia. }
    destruct settled as [result | error]; [apply Hstop |].
    destruct (isRetryable error) as [[|] | e]; try apply Hstop.
    destruct (attempt =? maxRetries) eqn:Hlast; [apply Hstop |].
    apply Z.eqb_neq in Hlast.
    destruct (IH (attempt + 1) error w1
                ((tr ++ [Invoke]) ++ [Sleep (delayMs attempt)])%list)
      as (k & Hk & Hpos & Htrace & Hworld); [lia |].
    destruct k as [| k]; [exfalso; apply Hpos; [lia | reflexivity] |].
    exists (S (S k)). repeat split; auto; try lia.
    + rewrite Htrace. unfold backoff_trace. cbn [retry_prefix].
      now rewrite <- !app_assoc.
    + rewrite Hworld. cbn [world_after]. now rewrite Hcall.
Qed.

End ExecutorFacts.

Lemma retry_prefix_snoc (k : nat) :
  forall attempt,
    retry_prefix attempt (S k)
    = (backoff_trace attempt (S k) ++ [Sleep (delayMs (attempt + Z.of_nat k))])%list.
Proof.
  unfold backoff_trace.
  induction k as [| k IH]; intros attempt.
  - simpl. now rewrite Z.add_0_r.
  - change (retry_prefix attempt (S (S k)))
      with (Invoke :: Sleep (delayMs attempt) :: retry_prefix (attempt + 1) (S k)).
    rewrite IH. cbn [retry_prefix app].
    replace (attempt + 1 + Z.of_nat k) with (attempt + Z.of_nat (S k)) by lia.
    now rewrite <- !app_assoc.
Qed.

(** The delay after attempt [j] is [2^(j-1) * 1000] ms. *)
Lemma delays_of_run (k : nat) :
  delays (backoff_trace 1 k)
  = map (fun j => 2 ^ (Z.of_nat j - 1) * 1000) (seq 1 (k - 1)).
Proof.
  rewrite delays_backoff_trace, <- seq_shift, map_map.
  apply map_ext; intros j. unfold delayMs. do 2 f_equal. lia.
Qed.

Lemma world_after_succ {World : Type} (apiCall : @operation World) (k : nat) :
  forall w, world_after apiCall (S k) w = snd (apiCall (world_after apiCall k w)).
Proof.
  induction k as [| k IH]; intros w; [reflexivity |].
  change (world_after apiCall (S (S k)) w)
    with (world_after apiCall (S k) (snd (apiCall w))).
  now rewrite IH.
Qed.

Section RunFacts.

Context {World : Type}.
Variable apiCall : @operation World.
Variable maxRetriesArg : option Z.
Variable w : World.

(** After [k] retryable failures, with attempts to spare, the run is what
    the loop does from attempt [k + 1] on. *)
Lemma retry_after_failures (k : nat) :
  Z.of_nat k < budget maxRetriesArg ->
  (forall i, (i < k)%nat ->
     exists e, settles apiCall i w = Throw e /\ retryable_status e) ->
  exists lastError,
    retryWithExponentialBackoff apiCall maxRetriesArg w
    = attempts apiCall (budget maxRetriesArg)
          (Z.to_nat (budget maxRetriesArg) - k) (1 + Z.of_nat k) lastError
          (world_after apiCall k w) (retry_prefix 1 k).
Proof.
  intros Hk Hfail. unfold retryWithExponentialBackoff.
  destruct (attempts_skip_failures apiCall (budget maxRetriesArg) k
              (Z.to_nat (budget maxRetriesArg)) 1 VUndefined w [])
    as (le & Heq); [lia | lia | exact Hfail |].
  exists le. exact Heq.
Qed.

(** Attempt [k + 1] settles the run when it succeeds. *)
Lemma retry_succeeds_at (k : nat) (result : value) :
  Z.of_nat k < budget maxRetriesArg ->
  (forall i, (i < k)%nat ->
     exists e, settles apiCall i w = Throw e /\ retryable_status e) ->
  settles apiCall k w = Return result ->
  retryWithExponentialBackoff apiCall maxRetriesArg w
  = Run (Return result) (world_after apiCall (S k) w) (backoff_trace 1 (S k)).
Proof.
  intros Hk Hfail Hok.
  destruct (retry_after_failures k Hk Hfail) as (le & ->).
  destruct (Z.to_nat (budget maxRetriesArg) - k)%nat as [| n] eqn:Hn; [lia |].
  cbn [attempts]. rewrite world_after_succ. unfold settles in Hok.
  destruct (apiCall (world_after apiCall k w)) as [settled w1].
  simpl in Hok; subst settled. reflexivity.
Qed.

(** Attempt [k + 1] settles the run when it fails without a retryable
    status. *)
Lemma retry_gives_up_at (k : nat) (error : value) :
  Z.of_nat k < budget maxRetriesArg ->
  (forall i, (i < k)%nat ->
     exists e, settles apiCall i w = Throw e /\ retryable_status e) ->
  settles apiCall k w = Throw error ->
  no_retryable_status error ->
  retryWithExponentialBackoff apiCall maxRetriesArg w
  = Run (Throw error) (world_after apiCall (S k) w) (backoff_trace 1 (S k)).
Proof.
  intros Hk Hfail Hth Hno.
  destruct (retry_after_failures k Hk Hfail) as (le & ->).
  destruct (Z.to_nat (budget maxRetriesArg) - k)%nat as [| n] eqn:Hn; [lia |].
  cbn [attempts]. rewrite world_after_succ. unfold settles in Hth.
  destruct (apiCall (world_after apiCall k w)) as [settled w1].
  simpl in Hth; subst settled.
  now rewrite (isRetryable_false error Hno).
Qed.

(** When every attempt fails with a retryable status the run makes all the
    attempts of the budget and ends with the last error. *)
Lemma retry_exhausted :
  1 <= budget maxRetriesArg ->
  (forall i, exists e, settles apiCall i w = Throw e /\ retryable_status e) ->
  exists last,
    settles apiCall (Z.to_nat (budget maxRetriesArg) - 1) w = Throw last /\
    retryWithExponentialBackoff apiCall maxRetriesArg w
    = Run (Throw last)
          (world_after apiCall (Z.to_nat (budget maxRetriesArg)) w)
          (backoff_trace 1 (Z.to_nat (budget maxRetriesArg))).
Proof.
  intros Hpos Hfail.
  destruct (Z.to_nat (budget maxRetriesArg)) as [| k] eqn:Hn; [lia |].
  destruct (retry_after_failures k) as (le & Hr); [lia | intros i _; apply Hfail |].
  destruct (Hfail k) as (last & Hlast & Hre).
  exists last. rewrite Nat.sub_succ, Nat.sub_0_r. split; [exact Hlast |].
  rewrite Hr, Hn.
  replace (S k - k)%nat with 1%nat by lia.
  cbn [attempts]. rewrite world_after_succ. unfold settles in Hlast.
  destruct (apiCall (world_after apiCall k w)) as [settled w1].
  simpl in Hlast; subst settled.
  rewrite (isRetryable_true last Hre).
  replace (1 + Z.of_nat k =? budget maxRetriesArg) with true
    by (symmetry; apply Z.eqb_eq; lia).
  reflexivity.
Qed.

(** Whatever the operation does, the trace is a run of invocations
    separated by the delays of the policy, and the final world is the one
    these invocations produce. *)
Lemma retry_shape :
  exists k,
    Z.of_nat k <= Z.max 0 (budget maxRetriesArg) /\
    (1 <= budget maxRetriesArg -> k <> O) /\
    trace (retryWithExponentialBackoff apiCall maxRetriesArg w) = backoff_trace 1 k /\
    world (retryWithExponentialBackoff apiCall maxRetriesArg w) = world_after apiCall k w.
Proof.
  unfold retryWithExponentialBackoff.
  destruct (Z_le_gt_dec 1 (budget maxRetriesArg)) as [Hpos | Hneg].
  - destruct (attempts_shape apiCall (budget maxRetriesArg)
                (Z.to_nat (budget maxRetriesArg)) 1 VUndefined w [])
      as (k & Hk & Hnz & Htrace & Hworld); [lia |].
    exists k. split; [lia |]. split; [intros _; apply Hnz; lia |].
    split; assumption.
  - exists O. replace (Z.to_nat (budget maxRetriesArg)) with O by lia.
    simpl. repeat split; auto; lia.
Qed.

End RunFacts.

(* ================================================================== *)
(** ** The backoff executor *)
(* ================================================================== *)

(** C1.  An operation that fails on every invocation with an error whose
    status is 429, 500 or 503 is invoked exactly [maxRetries] times (the
    budget admitting at least one attempt), and the run then raises the error
    of the last invocation: the outcome is a [Throw], of that very error. *)
Theorem retry_exhausts_budget_and_raises_last_error
    {World : Type} (apiCall : @operation World) (maxRetriesArg : option Z) (w : World) :
  1 <= budget maxRetriesArg ->
  (forall n, exists e, settles apiCall n w = Throw e /\ retryable_status e) ->
  exists last,
    settles apiCall (Z.to_nat (budget maxRetriesArg) - 1) w = Throw last /\
    outcome (retryWithExponentialBackoff apiCall maxRetriesArg w) = Throw last /\
    invocations (trace (retryWithExponentialBackoff apiCall maxRetriesArg w))
    = budget maxRetriesArg /\
    world (retryWithExponentialBackoff apiCall maxRetriesArg w)
    = world_after apiCall (Z.to_nat (budget maxRetriesArg)) w.
Proof.
  intros Hpos Hfail.
  destruct (retry_exhausted apiCall maxRetriesArg w Hpos Hfail) as (last & Hlast & Hrun).
  exists last. rewrite Hrun. cbn [outcome trace world].
  rewrite invocations_backoff_trace.
  repeat split; auto. lia.
Qed.

Lemma failing_retryably (code : Z) :
  code = 429 \/ code = 500 \/ code = 503 ->
  forall n w, exists e, settles (failing code) n w = Throw e /\ retryable_status e.
Proof.
  intros Hcode n w. unfold settles, failing. simpl. eexists. split; [reflexivity |].
  unfold retryable_status, status_is.
  destruct Hcode as [-> | [-> | ->]];
    [left | right; left | right; right]; eexists; split; reflexivity.
Qed.

Lemma retry_exhausts_budget_witness :
  exists last,
    settles (failing 503) (Z.to_nat (budget (Some 4)) - 1) O = Throw last /\
    outcome (retryWithExponentialBackoff (failing 503) (Some 4) O) = Throw last /\
    invocations (trace (retryWithExponentialBackoff (failing 503) (Some 4) O))
    = budget (Some 4) /\
    world (retryWithExponentialBackoff (failing 503) (Some 4) O)
    = world_after (failing 503) (Z.to_nat (budget (Some 4))) O.
Proof.
  apply (retry_exhausts_budget_and_raises_last_error (failing 503) (Some 4) O).
  - simpl. lia.
  - intros n. apply failing_retryably. right; right; reflexivity.
Defined.

(** C2.  When the first invocation fails with an error that carries no
    status field, or a status other than 429, 500 and 503, the run raises
    that error at once: one invocation, no delay. *)
Theorem retry_raises_non_retryable_at_once
    {World : Type} (apiCall : @operation World) (maxRetriesArg : option Z)
    (w w1 : World) (error : value) :
  1 <= budget maxRetriesArg ->
  apiCall w = (Throw error, w1) ->
  no_retryable_status error ->
  retryWithExponentialBackoff apiCall maxRetriesArg w = Run (Throw error) w1 [Invoke].
Proof.
  intros Hpos Hcall Hno.
  rewrite (retry_gives_up_at apiCall maxRetriesArg w O error).
  - simpl. now rewrite Hcall.
  - lia.
  - intros i Hi. lia.
  - unfold settles. simpl. now rewrite Hcall.
  - exact Hno.
Qed.

Lemma retry_raises_non_retryable_witness :
  retryWithExponentialBackoff (failing 400) None O
  = Run (Throw (VError "Error" "failure 0" [ ("status", VInt 400) ])) 1%nat [Invoke]
  /\ retryWithExponentialBackoff offline (Some 5) 7%nat
     = Run (Throw (Error "getaddrinfo ENOTFOUND openrouter.ai")) 8%nat [Invoke].
Proof.
  split.
  - apply (retry_raises_non_retryable_at_once (failing 400) None O 1%nat).
    + simpl. lia.
    + reflexivity.
    + eexists. split; [reflexivity |]. right. repeat split; reflexivity.
  - apply (retry_raises_non_retryable_at_once offline (Some 5) 7%nat 8%nat).
    + simpl. lia.
    + reflexivity.
    + eexists. split; [reflexivity |]. left. reflexivity.
Defined.

(** What the executor does with a thrown [null] or [undefined], which has no
    fields to read: the TypeError of the status read is raised in its place,
    still after a single invocation and without delay. *)
Lemma retry_on_thrown_nullish
    {World : Type} (apiCall : @operation World) (maxRetriesArg : option Z)
    (w w1 : World) (error : value) :
  1 <= budget maxRetriesArg ->
  apiCall w = (Throw error, w1) ->
  is_nullish error = true ->
  exists message,
    retryWithExponentialBackoff apiCall maxRetriesArg w
    = Run (Throw (TypeError message)) w1 [Invoke].
Proof.
  intros Hpos Hcall Hnull.
  destruct (isRetryable_nullish error Hnull) as (message & Hmsg).
  exists message. unfold retryWithExponentialBackoff.
  destruct (Z.to_nat (budget maxRetriesArg)) as [| n] eqn:Hn; [lia |].
  cbn [attempts]. now rewrite Hcall, Hmsg.
Qed.

(** C3, as the specification states it, fails: with the default budget of
    three attempts an operation that fails with status 503 every time incurs
    the delays 1000 ms and 2000 ms, and no delay of 4000 ms, because the loop
    is left before the delay of the last attempt. *)
Lemma default_budget_incurs_no_third_delay :
  (forall n, exists e, settles (failing 503) n O = Throw e /\ retryable_status e) /\
  delays (trace (retryWithExponentialBackoff (failing 503) None O)) = [1000; 2000] /\
  delays (trace (retryWithExponentialBackoff (failing 503) None O)) <> [1000; 2000; 4000].
Proof.
  split; [| split].
  - intros n. apply failing_retryably. right; right; reflexivity.
  - reflexivity.
  - discriminate.
Qed.

(** C3, amended.  When attempts [1..j] fail with a retryable status and [j]
    is not the last attempt of the budget, the executor waits
    [2^(j-1) * 1000] ms after attempt [j] and then makes attempt [j + 1];
    no delay follows the last attempt of the budget.  So an operation that
    fails with a retryable status every time incurs the delays
    [2^(j-1) * 1000] for [j = 1 .. maxRetries - 1]: with the default budget,
    1000 ms and 2000 ms. *)
Theorem retry_waits_between_attempts_only
    {World : Type} (apiCall : @operation World) (maxRetriesArg : option Z) (w : World) :
  (forall j : nat,
     (1 <= j)%nat -> Z.of_nat j < budget maxRetriesArg ->
     (forall i, (i < j)%nat ->
        exists e, settles apiCall i w = Throw e /\ retryable_status e) ->
     exists rest,
       trace (retryWithExponentialBackoff apiCall maxRetriesArg w)
       = (backoff_trace 1 j ++ Sleep (2 ^ (Z.of_nat j - 1) * 1000) :: Invoke :: rest)%list)
  /\
  (1 <= budget maxRetriesArg ->
   (forall n, exists e, settles apiCall n w = Throw e /\ retryable_status e) ->
   delays (trace (retryWithExponentialBackoff apiCall maxRetriesArg w))
   = map (fun j => 2 ^ (Z.of_nat j - 1) * 1000)
         (seq 1 (Z.to_nat (budget maxRetriesArg) - 1))
   /\ (maxRetriesArg = None ->
       delays (trace (retryWithExponentialBackoff apiCall maxRetriesArg w))
       = [1000; 2000])).
Proof.
  split.
  - intros j Hj Hlt Hfail.
    destruct (retry_after_failures apiCall maxRetriesArg w j Hlt Hfail) as (le & ->).
    destruct (attempts_trace_extends apiCall (budget maxRetriesArg)
                (Z.to_nat (budget maxRetriesArg) - j) (1 + Z.of_nat j) le
                (world_after apiCall j w) (retry_prefix 1 j))
      as (ext & Hext & Hinv).
    destruct Hinv as (rest & ->); [lia |].
    exists rest. rewrite Hext.
    destruct j as [| j]; [lia |].
    rewrite retry_prefix_snoc, <- app_assoc.
    replace (delayMs (1 + Z.of_nat j)) with (2 ^ (Z.of_nat (S j) - 1) * 1000)
      by (unfold delayMs; do 2 f_equal; lia).
    reflexivity.
  - intros Hpos Hfail.
    destruct (retry_exhausted apiCall maxRetriesArg w Hpos Hfail) as (last & _ & Hrun).
    rewrite Hrun. cbn [trace]. rewrite delays_of_run.
    split; [reflexivity |].
    intros ->. reflexivity.
Qed.

Lemma retry_waits_between_attempts_witness :
  (exists rest,
     trace (retryWithExponentialBackoff (failing 429) (Some 4) O)
     = (backoff_trace 1 2 ++ Sleep (2 ^ (Z.of_nat 2 - 1) * 1000) :: Invoke :: rest)%list)
  /\ delays (trace (retryWithExponentialBackoff (failing 429) None O)) = [1000; 2000].
Proof.
  split.
  - apply (proj1 (retry_waits_between_attempts_only (failing 429) (Some 4) O) 2%nat).
    + lia.
    + simpl. lia.
    + intros i _. apply failing_retryably. left; reflexivity.
  - apply (proj2 (retry_waits_between_attempts_only (failing 429) None O)).
    + simpl. lia.
    + intros n. apply failing_retryably. left; reflexivity.
    + reflexivity.
Defined.

(** C10.  With [maxRetries <= 0] the operation is never invoked (the trace
    is empty and the world untouched) and the run rejects with [undefined],
    the value [lastError] has before any assignment. *)
Theorem retry_without_budget_throws_undefined
    {World : Type} (apiCall : @operation World) (maxRetries : Z) (w : World) :
  maxRetries <= 0 ->
  retryWithExponentialBackoff apiCall (Some maxRetries) w = Run (Throw VUndefined) w [].
Proof.
  intros Hle. unfold retryWithExponentialBackoff. simpl budget.
  replace (Z.to_nat maxRetries) with O by lia.
  reflexivity.
Qed.

Lemma retry_without_budget_witness :
  retryWithExponentialBackoff (flaky 1 (VStr "ok")) (Some 0) O = Run (Throw VUndefined) O []
  /\ retryWithExponentialBackoff (failing 503) (Some (-2)) O = Run (Throw VUndefined) O [].
Proof.
  split.
  - apply (retry_without_budget_throws_undefined (flaky 1 (VStr "ok")) 0 O). lia.
  - apply (retry_without_budget_throws_undefined (failing 503) (-2) O). lia.
Defined.

(* ================================================================== *)
(** ** The fenced-block pattern *)
(* ================================================================== *)

Lemma append_assoc (a b c : string) : (a ++ b) ++ c = a ++ b ++ c.
Proof. induction a as [| x a IH]; simpl; [reflexivity | now rewrite IH]. Qed.

Lemma strip_prefix_sound (p : string) :
  forall s rest, strip_prefix p s = Some rest -> s = p ++ rest.
Proof.
  induction p as [| a p IH]; intros s rest H; simpl in H.
  - now inversion H.
  - destruct s as [| b s]; [discriminate |].
    destruct (Ascii.eqb a b) eqn:Hab; [| discriminate].
    apply Ascii.eqb_eq in Hab; subst b. simpl. f_equal. now apply IH.
Qed.

Lemma strip_prefix_append (p rest : string) : strip_prefix p (p ++ rest) = Some rest.
Proof.
  induction p as [| a p IH]; simpl; [reflexivity |].
  now rewrite Ascii.eqb_refl.
Qed.

(** The lazy group stops in front of an occurrence of [close]... *)
Lemma lazy_any_then_sound (close : string) :
  forall s c, lazy_any_then close s = Some c -> exists post, s = c ++ close ++ post.
Proof.
  induction s as [| a s IH]; intros c H; simpl in H.
  - destruct (strip_prefix close "") as [rest |] eqn:Hp; [| discriminate].
    inversion H; subst c. exists rest. simpl. now apply strip_prefix_sound.
  - destruct (strip_prefix close (String a s)) as [rest |] eqn:Hp.
    + inversion H; subst c. exists rest. simpl. now apply strip_prefix_sound.
    + destruct (lazy_any_then close s) as [c' |] eqn:Hrec; [| discriminate].
      inversion H; subst c. destruct (IH c' eq_refl) as (post & ->).
      exists post. reflexivity.
Qed.

(** ... and in front of the first one. *)
Lemma lazy_any_then_shortest (close : string) :
  forall c s post,
    s = c ++ close ++ post ->
    exists c', lazy_any_then close s = Some c' /\ (String.length c' <= String.length c)%nat.
Proof.
  induction c as [| a c IH]; intros s post ->.
  - exists "". simpl append at 1.
    destruct (close ++ post) eqn:Hs; simpl;
      rewrite <- Hs, strip_prefix_append; split; auto.
  - simpl append.
    destruct (IH (c ++ close ++ post) post eq_refl) as (c' & Hc' & Hlen).
    cbn [lazy_any_then].
    destruct (strip_prefix close (String a (c ++ close ++ post))).
    + exists "". split; [reflexivity | simpl; lia].
    + rewrite Hc'. exists (String a c'). split; [reflexivity | simpl; lia].
Qed.

Lemma fence_here_sound (s inner : string) :
  fence_here s = Some inner ->
  exists post, s = fence_open ++ inner ++ fence_close ++ post.
Proof.
  unfold fence_here. intros H.
  destruct (strip_prefix fence_open s) as [rest |] eqn:Hp; [| discriminate].
  apply strip_prefix_sound in Hp. destruct (lazy_any_then_sound _ _ _ H) as (post & ->).
  now exists post.
Qed.

Lemma fence_here_shortest (inner post : string) :
  exists inner',
    fence_here (fence_open ++ inner ++ fence_close ++ post) = Some inner' /\
    (String.length inner' <= String.length inner)%nat.
Proof.
  unfold fence_here. rewrite strip_prefix_append.
  now apply (lazy_any_then_shortest fence_close inner _ post).
Qed.

(** The search reports the block that opens first and, of the closings
    that follow this opening, the first. *)
Lemma fence_search_first :
  forall s inner,
    fence_search s = Some inner ->
    exists pre post,
      s = pre ++ fence_open ++ inner ++ fence_close ++ post /\
      forall pre' inner' post',
        s = pre' ++ fence_open ++ inner' ++ fence_close ++ post' ->
        (String.length pre <= String.length pre')%nat /\
        (String.length pre = String.length pre' ->
         (String.length inner <= String.length inner')%nat).
Proof.
  assert (Hhere : forall s inner,
             fence_here s = Some inner ->
             exists pre post,
               s = pre ++ fence_open ++ inner ++ fence_close ++ post /\
               forall pre' inner' post',
                 s = pre' ++ fence_open ++ inner' ++ fence_close ++ post' ->
                 (String.length pre <= String.length pre')%nat /\
                 (String.length pre = String.length pre' ->
                  (String.length inner <= String.length inner')%nat)).
  { intros s inner H. destruct (fence_here_sound s inner H) as (post & Hs).
    exists "", post. split; [exact Hs |].
    intros pre' inner' post' Hs'. split; [simpl; lia |].
    destruct pre' as [| a pre']; [| simpl; discriminate]. intros _.
    cbn [append] in Hs'. destruct (fence_here_shortest inner' post') as (c & Hc & Hlen).
    rewrite <- Hs', H in Hc. now inversion Hc. }
  induction s as [| a s IH]; intros inner H.
  - simpl in H. discriminate.
  - cbn [fence_search] in H.
    destruct (fence_here (String a s)) as [c |] eqn:Hh.
    + inversion H; subst c. now apply Hhere.
    + destruct (IH inner H) as (pre & post & Hs & Hmin).
      exists (String a pre), post. split; [cbn [append]; now rewrite <- Hs |].
      intros pre' inner' post' Hs'.
      destruct pre' as [| b pre'].
      * cbn [append] in Hs'. destruct (fence_here_shortest inner' post') as (c & Hc & _).
        rewrite <- Hs', Hh in Hc. discriminate.
      * cbn [append] in Hs'. inversion Hs'; subst b.
        destruct (Hmin pre' inner' post') as (Hle & Heq); [assumption |].
        simpl. split; [lia |]. intros E. apply Heq. lia.
Qed.

(** Any such block makes the search succeed. *)
Lemma fence_search_complete (text inner : string) :
  fenced_json text inner -> exists inner', fence_search text = Some inner'.
Proof.
  intros (pre & post & ->). induction pre as [| a pre IH].
  - cbn [append]. destruct (fence_here_shortest inner post) as (c & Hc & _).
    exists c. destruct (fence_open ++ inner ++ fence_close ++ post);
      cbn [fence_search]; now rewrite Hc.
  - destruct IH as (c & Hc). cbn [append]. cbn [fence_search].
    destruct (fence_here _) as [c' |]; [now exists c' | now exists c].
Qed.

Lemma fence_search_sound (text inner : string) :
  fence_search text = Some inner -> fenced_json text inner.
Proof.
  intros H. destruct (fence_search_first text inner H) as (pre & post & Hs & _).
  now exists pre, post.
Qed.

(* ================================================================== *)
(** ** The completion client *)
(* ================================================================== *)

Lemma ecma404_parse_throws (text : string) (e : value) :
  ecma404_parse text = Throw e -> e = malformed.
Proof.
  unfold ecma404_parse.
  destruct (lex 0 text) as [ts |]; [| now inversion 1].
  destruct (steps (Parser [] XValue) ts) as [[st ex] |]; [| now inversion 1].
  destruct st; [destruct ex |]; now inversion 1.
Qed.

Lemma ecma_throws_only_SyntaxError : throws_only_SyntaxError ecma_JSON.
Proof.
  intros text e H. apply ecma404_parse_throws in H. subst e.
  now exists "Unexpected token or end of JSON input", [].
Qed.

(** The reference parser on a few texts. *)
Example ecma404_parse_nested :
  ecma404_parse ("{" ++ dquote ++ "a" ++ dquote ++ ": [1, 2.50, -3e2, true, null], "
                 ++ dquote ++ "a\u0041" ++ dquote ++ ":{}}")
  = Return (VObj [ ("a", VArr [ VInt 1; VNum (Dec 25 (-1)); VInt (-300);
                                VBool true; VNull ]);
                   ("aA", VObj []) ]).
Proof. reflexivity. Qed.

Example ecma404_parse_rejects :
  map ecma404_parse [ ""; "01"; "[1,]"; "{,}"; "1 2"; "tru"; "1."; "'a'"; "undefined" ]
  = repeat (Throw malformed) 9.
Proof. reflexivity. Qed.

Example ecma404_parse_last_duplicate_wins :
  ecma404_parse ("{" ++ dquote ++ "a" ++ dquote ++ ":1," ++ dquote ++ "a" ++ dquote ++ ":2}")
  = Return (VObj [ ("a", VInt 2) ]).
Proof. reflexivity. Qed.

(** Reading the content of a reply. *)
Lemma first_content_of_choice (response first message : value) (rest : list value)
    (s : string) :
  get_prop response "choices" = Return (VArr (first :: rest)) ->
  get_prop first "message" = Return message ->
  get_prop message "content" = Return (VStr s) ->
  first_content response = Return (VStr s).
Proof.
  intros Hc Hm Hs. unfold first_content. rewrite Hc. cbn [bind opt_index0].
  assert (Hf : is_nullish first = false) by (destruct first; try reflexivity; discriminate).
  assert (Hn : is_nullish message = false)
    by (destruct message; try reflexivity; discriminate).
  unfold opt_prop. rewrite Hf, Hm. cbn [bind]. rewrite Hn, Hs. cbn [bind].
  unfold js_or. simpl. now destruct s.
Qed.

Lemma first_content_without_choices (response : value) :
  get_prop response "choices" = Return VUndefined \/
  get_prop response "choices" = Return (VArr []) ->
  first_content response = Return (VStr "").
Proof.
  unfold first_content. intros [-> | ->]; reflexivity.
Qed.

(** A reply that is [null] has no fields to read. *)
Lemma first_content_of_nullish (response : value) :
  is_nullish response = true ->
  exists message, first_content response = Throw (TypeError message).
Proof.
  destruct response; simpl; try discriminate; intros _; eexists; reflexivity.
Qed.

Lemma first_content_without_content (response first message : value)
    (rest : list value) :
  get_prop response "choices" = Return (VArr (first :: rest)) ->
  get_prop first "message" = Return message ->
  get_prop message "content" = Return VUndefined ->
  first_content response = Return (VStr "").
Proof.
  intros Hc Hm Hs. unfold first_content. rewrite Hc. cbn [bind opt_index0].
  assert (Hf : is_nullish first = false) by (destruct first; try reflexivity; discriminate).
  assert (Hn : is_nullish message = false)
    by (destruct message; try reflexivity; discriminate).
  unfold opt_prop. rewrite Hf, Hm. cbn [bind]. now rewrite Hn, Hs.
Qed.

Lemma get_prop_returns (v : value) (key : string) :
  is_nullish v = false -> exists x, get_prop v key = Return x.
Proof.
  destruct v; simpl; try discriminate; intros _; eexists; reflexivity.
Qed.

Lemma opt_prop_returns (v : value) (key : string) : exists x, opt_prop v key = Return x.
Proof.
  unfold opt_prop. destruct (is_nullish v) eqn:Hn; [now eexists |].
  now apply get_prop_returns.
Qed.

Lemma opt_index0_returns (v : value) : exists x, opt_index0 v = Return x.
Proof.
  destruct v; simpl; eexists; reflexivity.
Qed.

(** The content chain throws only when the response itself is [null] or
    [undefined]. *)
Lemma first_content_throws (response e : value) :
  first_content response = Throw e -> exists message, e = TypeError message.
Proof.
  unfold first_content.
  destruct (is_nullish response) eqn:Hn.
  - destruct response; try discriminate; simpl; intros H; inversion H; eexists; reflexivity.
  - destruct (get_prop_returns response "choices" Hn) as (choices & ->). cbn [bind].
    destruct (opt_index0_returns choices) as (first & ->). cbn [bind].
    destruct (opt_prop_returns first "message") as (message & ->). cbn [bind].
    destruct (opt_prop_returns message "content") as (content & ->). cbn [bind].
    discriminate.
Qed.

Section ClientFacts.

Context `{J : JSON}.
Context {Net : Type}.
Variable fetch : request -> Net -> completion response * Net.
Variable cfg : config.

(** Every invocation of the arrow function sends the request of the
    prompt. *)
Lemma send_logs_request (prompt : value) (w : wire) :
  sent (snd (send fetch cfg prompt w)) = (sent w ++ [chat_request cfg prompt])%list.
Proof.
  unfold send. destruct (fetch (chat_request cfg prompt) (net w)) as [[res | e] n].
  - destruct (ok res); reflexivity.
  - reflexivity.
Qed.

Lemma sent_after (prompt : value) (k : nat) :
  forall w,
    sent (world_after (send fetch cfg prompt) k w)
    = (sent w ++ repeat (chat_request cfg prompt) k)%list.
Proof.
  induction k as [| k IH]; intros w.
  - simpl. now rewrite app_nil_r.
  - cbn [world_after repeat]. rewrite IH, send_logs_request.
    now rewrite <- app_assoc.
Qed.

(** A response without success status becomes an error tagged with the
    status. *)
Lemma send_http_failure (prompt : value) (w : wire) (res : response) (n : Net) :
  fetch (chat_request cfg prompt) (net w) = (Return res, n) ->
  ok res = false ->
  fst (send fetch cfg prompt w)
  = Throw (VError "Error" ("OpenRouter API error: " ++ ToString (VInt (status res)))
                  [ ("status", VInt (status res)) ]).
Proof.
  intros Hfetch Hok. unfold send. rewrite Hfetch, Hok. reflexivity.
Qed.

(** Extracting the reply adds nothing to the run of the executor. *)
Lemma call_keeps_run (prompt : value) (expectJsonArg : option bool) (w : wire) :
  trace (callOpenRouterAPI fetch cfg prompt expectJsonArg w)
  = trace (retryWithExponentialBackoff (send fetch cfg prompt) None w) /\
  world (callOpenRouterAPI fetch cfg prompt expectJsonArg w)
  = world (retryWithExponentialBackoff (send fetch cfg prompt) None w).
Proof.
  unfold callOpenRouterAPI.
  destruct (outcome (retryWithExponentialBackoff (send fetch cfg prompt) None w));
    [destruct expectJsonArg as [[|] |] |]; split; reflexivity.
Qed.

Lemma call_after_first_success (prompt response : value) (expectJsonArg : option bool)
    (w w1 : wire) :
  send fetch cfg prompt w = (Return response, w1) ->
  callOpenRouterAPI fetch cfg prompt expectJsonArg w
  = Run (if match expectJsonArg with Some b => b | None => false end
         then parse_reply response else first_content response) w1 [Invoke].
Proof.
  intros Hsend. unfold callOpenRouterAPI.
  rewrite (retry_succeeds_at (send fetch cfg prompt) None w O response).
  - cbn [outcome world trace world_after backoff_trace retry_prefix app].
    rewrite Hsend. cbn [snd].
    destruct (match expectJsonArg with Some b => b | None => false end); reflexivity.
  - simpl. lia.
  - intros i Hi. lia.
  - unfold settles. simpl. now rewrite Hsend.
Qed.

(** The three ways the JSON block ends, for a reply whose text is a
    string. *)
Lemma parse_reply_direct (response parsed : value) (content : string) :
  first_content response = Return (VStr content) ->
  JSON_parse content = Return parsed ->
  parse_reply response = Return parsed.
Proof.
  intros Hc Hp. unfold parse_reply. rewrite Hc. cbn [bind ToString]. now rewrite Hp.
Qed.

Lemma parse_reply_fallback (response e : value) (content : string) :
  first_content response = Return (VStr content) ->
  JSON_parse content = Throw e ->
  parse_reply response
  = match fence_search content with
    | Some inner => JSON_parse inner
    | None => Throw parse_failure
    end.
Proof.
  intros Hc Hp. unfold parse_reply. rewrite Hc. cbn [bind ToString]. now rewrite Hp.
Qed.

(** The service's own error comes from the last line of the block only. *)
Lemma parse_failure_origin (response : value) :
  throws_only_SyntaxError J ->
  parse_reply response = Throw parse_failure ->
  exists content e,
    first_content response = Return (VStr content) /\
    JSON_parse content = Throw e /\
    fence_search content = None.
Proof.
  intros Hsyn. unfold parse_reply.
  assert (Hnot : forall text, JSON_parse text <> Throw parse_failure).
  { intros text H. destruct (Hsyn text _ H) as (m & props & Heq).
    unfold parse_failure, Error in Heq. discriminate Heq. }
  assert (Hfc : forall v, first_content response = Throw v -> v <> parse_failure).
  { intros v H. destruct (first_content_throws response v H) as (m & ->).
    unfold parse_failure, Error, TypeError. discriminate. }
  destruct (first_content response) as [text | v] eqn:Hc; cbn [bind].
  - destruct (JSON_parse (ToString text)) as [parsed | e] eqn:Hp; [discriminate |].
    destruct text; cbn [text_match bind]; try (intros H; inversion H; discriminate).
    cbn [ToString] in Hp.
    destruct (fence_search s) as [inner |] eqn:Hs.
    + intros H. now apply Hnot in H.
    + intros _. now exists s, e.
  - intros H. exfalso. exact (Hfc _ H eq_refl).
Qed.

End ClientFacts.

Lemma call_plain_outcome `{J : JSON} {Net : Type}
    (fetch : request -> Net -> completion response * Net) (cfg : config)
    (prompt response : value) (expectJsonArg : option bool) (w : wire) :
  expectJsonArg = None \/ expectJsonArg = Some false ->
  outcome (retryWithExponentialBackoff (send fetch cfg prompt) None w) = Return response ->
  outcome (callOpenRouterAPI fetch cfg prompt expectJsonArg w) = first_content response.
Proof.
  intros Hmode Hout. unfold callOpenRouterAPI. rewrite Hout.
  destruct Hmode as [-> | ->]; reflexivity.
Qed.

(** C4.  When attempts [1 .. k-1] fail with a retryable status and attempt
    [k <= maxRetries] succeeds, the run returns the result of attempt [k],
    has made exactly [k] invocations (the world is the one they leave) and
    has waited [2^(j-1) * 1000] ms after each failed attempt [j].  With a
    provider that answers 503, 503 and then 200 with JSON text, the course
    generation succeeds on the third attempt after waiting 1 s and 2 s. *)
Theorem retry_returns_the_first_success :
  (forall (World : Type) (apiCall : @operation World) (maxRetriesArg : option Z)
          (w : World) (k : nat) (result : value),
      (1 <= k)%nat -> Z.of_nat k <= budget maxRetriesArg ->
      (forall i, (i < k - 1)%nat ->
         exists e, settles apiCall i w = Throw e /\ retryable_status e) ->
      settles apiCall (k - 1) w = Return result ->
      outcome (retryWithExponentialBackoff apiCall maxRetriesArg w) = Return result /\
      invocations (trace (retryWithExponentialBackoff apiCall maxRetriesArg w))
      = Z.of_nat k /\
      world (retryWithExponentialBackoff apiCall maxRetriesArg w)
      = world_after apiCall k w /\
      delays (trace (retryWithExponentialBackoff apiCall maxRetriesArg w))
      = map (fun j => 2 ^ (Z.of_nat j - 1) * 1000) (seq 1 (k - 1)))
  /\
  (let r := generateCourseContent (J := ecma_JSON) scripted test_config
              (VStr "Recursion") (VStr "text") (VStr "A function that calls itself.")
              (Wire [ http_error 503; http_error 503; http_ok (envelope (VStr a1_text)) ] [])
   in
   outcome r = Return a1_object /\
   trace r = [Invoke; Sleep 1000; Invoke; Sleep 2000; Invoke] /\
   net (world r) = [] /\
   List.length (sent (world r)) = 3%nat).
Proof.
  split.
  - intros World apiCall maxRetriesArg w k result Hk Hle Hfail Hok.
    destruct k as [| k]; [lia |].
    rewrite Nat.sub_succ, Nat.sub_0_r in Hfail, Hok.
    rewrite (retry_succeeds_at apiCall maxRetriesArg w k result); [| lia | auto | auto].
    cbn [outcome trace world].
    rewrite invocations_backoff_trace, delays_of_run. repeat split; reflexivity.
  - vm_compute. repeat split; reflexivity.
Qed.

Lemma retry_returns_the_first_success_witness :
  outcome (retryWithExponentialBackoff (flaky 3 (VStr "done")) None O)
  = Return (VStr "done") /\
  invocations (trace (retryWithExponentialBackoff (flaky 3 (VStr "done")) None O))
  = Z.of_nat 3 /\
  world (retryWithExponentialBackoff (flaky 3 (VStr "done")) None O)
  = world_after (flaky 3 (VStr "done")) 3 O /\
  delays (trace (retryWithExponentialBackoff (flaky 3 (VStr "done")) None O))
  = map (fun j => 2 ^ (Z.of_nat j - 1) * 1000) (seq 1 (3 - 1)).
Proof.
  apply (proj1 retry_returns_the_first_success nat (flaky 3 (VStr "done")) None O 3%nat).
  - lia.
  - simpl. lia.
  - intros i Hi. assert (Hcases : i = O \/ i = 1%nat) by lia.
    destruct Hcases as [-> | ->]; eexists; (split; [reflexivity |]);
      right; right; eexists; split; reflexivity.
  - reflexivity.
Defined.

(** C5.  In JSON mode a reply whose content is a string is parsed directly
    and the result returned; when the direct parse fails and the content
    contains a fenced block labelled json, the parse of a block's inner text
    is returned; when both fail the call fails with a parsing error (the
    service's own, or the one of [JSON.parse]).  Extracting the reply adds no
    invocation to the run, so nothing is retried.  The text [{"a":1}] yields
    the object with [a = 1], and so does the same text inside a fenced
    block; a reply that is no JSON at all fails with the service's error. *)
Theorem json_mode_parses_directly_then_the_fenced_block `{J : JSON} :
  (forall (response : value) (content : string),
      first_content response = Return (VStr content) ->
      (forall parsed,
          JSON_parse content = Return parsed -> parse_reply response = Return parsed) /\
      (forall e inner,
          JSON_parse content = Throw e -> fenced_json content inner ->
          exists inner',
            fenced_json content inner' /\ parse_reply response = JSON_parse inner') /\
      (forall e,
          JSON_parse content = Throw e ->
          (forall inner, fence_search content = Some inner ->
                         exists e', JSON_parse inner = Throw e') ->
          exists err,
            parse_reply response = Throw err /\
            (err = parse_failure \/ exists text, JSON_parse text = Throw err)))
  /\
  (forall (Net : Type) (fetch : request -> Net -> completion response * Net)
          (cfg : config) (prompt : value) (w : wire),
      trace (callOpenRouterAPI fetch cfg prompt (Some true) w)
      = trace (retryWithExponentialBackoff (send fetch cfg prompt) None w) /\
      world (callOpenRouterAPI fetch cfg prompt (Some true) w)
      = world (retryWithExponentialBackoff (send fetch cfg prompt) None w) /\
      forall response w1,
        send fetch cfg prompt w = (Return response, w1) ->
        callOpenRouterAPI fetch cfg prompt (Some true) w
        = Run (parse_reply response) w1 [Invoke])
  /\
  parse_reply (J := ecma_JSON) (envelope (VStr a1_text)) = Return a1_object /\
  parse_reply (J := ecma_JSON) (envelope (VStr a1_fenced)) = Return a1_object /\
  callOpenRouterAPI (J := ecma_JSON) scripted test_config (VStr "Is it JSON?") (Some true)
    (Wire [ http_ok (envelope (VStr "Sure! Here is your course.")) ] [])
  = Run (Throw parse_failure) (Wire [] [ chat_request (J := ecma_JSON) test_config (VStr "Is it JSON?") ])
        [Invoke].
Proof.
  split; [| split; [| repeat split; reflexivity]].
  - intros response content Hc. split; [| split].
    + intros parsed Hp. now apply parse_reply_direct with (content := content).
    + intros e inner Hp Hblock.
      destruct (fence_search_complete content inner Hblock) as (inner' & Hs).
      exists inner'. split; [now apply fence_search_sound |].
      rewrite (parse_reply_fallback response e content Hc Hp). now rewrite Hs.
    + intros e Hp Hinner.
      rewrite (parse_reply_fallback response e content Hc Hp).
      destruct (fence_search content) as [inner |].
      * destruct (Hinner inner eq_refl) as (e' & He').
        exists e'. split; [exact He' | right; now exists inner].
      * exists parse_failure. split; [reflexivity | now left].
  - intros Net fetch cfg prompt w.
    destruct (call_keeps_run fetch cfg prompt (Some true) w) as (Ht & Hw).
    split; [exact Ht |]. split; [exact Hw |].
    intros response w1 Hsend.
    now rewrite (call_after_first_success fetch cfg prompt response (Some true) w w1).
Qed.

Lemma json_mode_witness :
  parse_reply (J := ecma_JSON) (envelope (VStr a1_text)) = Return a1_object /\
  (exists inner',
      fenced_json a1_fenced inner' /\
      parse_reply (J := ecma_JSON) (envelope (VStr a1_fenced))
      = JSON_parse (JSON := ecma_JSON) inner') /\
  (exists err,
      parse_reply (J := ecma_JSON) (envelope (VStr "not json")) = Throw err /\
      (err = parse_failure \/ exists text, JSON_parse (JSON := ecma_JSON) text = Throw err)) /\
  callOpenRouterAPI (J := ecma_JSON) scripted test_config (VStr "p") (Some true)
    (Wire [ http_ok (envelope (VStr "not json")) ] [])
  = Run (parse_reply (J := ecma_JSON) (envelope (VStr "not json")))
        (Wire [] [ chat_request (J := ecma_JSON) test_config (VStr "p") ]) [Invoke].
Proof.
  split; [| split; [| split]].
  - apply (proj1 (@json_mode_parses_directly_then_the_fenced_block ecma_JSON)
             (envelope (VStr a1_text)) a1_text); reflexivity.
  - apply (proj1 (proj2 (proj1 (@json_mode_parses_directly_then_the_fenced_block ecma_JSON)
                           (envelope (VStr a1_fenced)) a1_fenced eq_refl))
             malformed a1_text).
    + reflexivity.
    + exists "", "". reflexivity.
  - apply (proj2 (proj2 (proj1 (@json_mode_parses_directly_then_the_fenced_block ecma_JSON)
                           (envelope (VStr "not json")) "not json" eq_refl))
             malformed).
    + reflexivity.
    + intros inner H. vm_compute in H. discriminate H.
  - apply (proj2 (proj2 (proj1 (proj2 (@json_mode_parses_directly_then_the_fenced_block ecma_JSON))
                           (list response) scripted test_config (VStr "p")
                           (Wire [ http_ok (envelope (VStr "not json")) ] [])))).
    reflexivity.
Defined.

(** C6.  Outside JSON mode, for a successful provider response, the call
    returns the content string of the first choice's message as it is, and
    the empty string when the response has no choices or the message has no
    content field.  A reply with content [hello] yields [hello]; a reply
    without choices yields the empty string. *)
Theorem plain_mode_returns_the_first_content `{J : JSON} :
  (forall (Net : Type) (fetch : request -> Net -> completion response * Net)
          (cfg : config) (prompt : value) (expectJsonArg : option bool) (w : wire)
          (response : value),
      expectJsonArg = None \/ expectJsonArg = Some false ->
      outcome (retryWithExponentialBackoff (send fetch cfg prompt) None w)
      = Return response ->
      (forall first rest message s,
          get_prop response "choices" = Return (VArr (first :: rest)) ->
          get_prop first "message" = Return message ->
          get_prop message "content" = Return (VStr s) ->
          outcome (callOpenRouterAPI fetch cfg prompt expectJsonArg w) = Return (VStr s)) /\
      (get_prop response "choices" = Return VUndefined \/
       get_prop response "choices" = Return (VArr []) ->
       outcome (callOpenRouterAPI fetch cfg prompt expectJsonArg w) = Return (VStr "")) /\
      (forall first rest message,
          get_prop response "choices" = Return (VArr (first :: rest)) ->
          get_prop first "message" = Return message ->
          get_prop message "content" = Return VUndefined ->
          outcome (callOpenRouterAPI fetch cfg prompt expectJsonArg w) = Return (VStr "")))
  /\
  outcome (callOpenRouterAPI (J := ecma_JSON) scripted test_config (VStr "Say hello") None
             (Wire [ http_ok (envelope (VStr "hello")) ] []))
  = Return (VStr "hello") /\
  outcome (callOpenRouterAPI (J := ecma_JSON) scripted test_config (VStr "Say hello") None
             (Wire [ http_ok (VObj [ ("id", VStr "gen-2") ]) ] []))
  = Return (VStr "") /\
  outcome (generateChatResponse (J := ecma_JSON) scripted test_config
             (VStr "What is recursion?") []
             (Wire [ http_ok (envelope (VStr "Recursion is...")) ] []))
  = Return (VStr "Recursion is...").
Proof.
  split; [| repeat split; reflexivity].
  intros Net fetch cfg prompt expectJsonArg w response Hmode Hout.
  rewrite (call_plain_outcome fetch cfg prompt response expectJsonArg w Hmode Hout).
  split; [| split].
  - intros first rest message s. apply first_content_of_choice.
  - apply first_content_without_choices.
  - intros first rest message. apply first_content_without_content.
Qed.

Lemma plain_mode_witness :
  outcome (callOpenRouterAPI (J := ecma_JSON) scripted test_config (VStr "Hi") None
             (Wire [ http_error 500; http_ok (envelope (VStr "hello")) ] []))
  = Return (VStr "hello") /\
  outcome (callOpenRouterAPI (J := ecma_JSON) scripted test_config (VStr "Hi") (Some false)
             (Wire [ http_ok (VObj [ ("choices", VArr []) ]) ] []))
  = Return (VStr "") /\
  outcome (callOpenRouterAPI (J := ecma_JSON) scripted test_config (VStr "Hi") None
             (Wire [ http_ok (envelope VUndefined) ] []))
  = Return (VStr "").
Proof.
  split; [| split].
  - apply (proj1 (proj1 (@plain_mode_returns_the_first_content ecma_JSON)
                    (list response) scripted test_config (VStr "Hi") None
                    (Wire [ http_error 500; http_ok (envelope (VStr "hello")) ] [])
                    (envelope (VStr "hello")) (or_introl eq_refl) eq_refl)
             (VObj [ ("index", VInt 0);
                     ("message",
                      VObj [ ("role", VStr "assistant"); ("content", VStr "hello") ]) ])
             []
             (VObj [ ("role", VStr "assistant"); ("content", VStr "hello") ]));
      reflexivity.
  - apply (proj1 (proj2 (proj1 (@plain_mode_returns_the_first_content ecma_JSON)
                           (list response) scripted test_config (VStr "Hi") (Some false)
                           (Wire [ http_ok (VObj [ ("choices", VArr []) ]) ] [])
                           (VObj [ ("choices", VArr []) ]) (or_intror eq_refl) eq_refl))).
    right. reflexivity.
  - apply (proj2 (proj2 (proj1 (@plain_mode_returns_the_first_content ecma_JSON)
                           (list response) scripted test_config (VStr "Hi") None
                           (Wire [ http_ok (envelope VUndefined) ] [])
                           (envelope VUndefined) (or_introl eq_refl) eq_refl))
             (VObj [ ("index", VInt 0);
                     ("message",
                      VObj [ ("role", VStr "assistant"); ("content", VUndefined) ]) ])
             []
             (VObj [ ("role", VStr "assistant"); ("content", VUndefined) ]));
      reflexivity.
Defined.

(** C7.  With the API key unset each of the four generation functions fails
    at once with the configuration error: the network is left as it was, no
    request is logged, and the executor is not entered (the trace is
    empty). *)
Theorem generation_fails_fast_without_api_key `{J : JSON} {Net : Type}
    (fetch : request -> Net -> completion response * Net) (cfg : config)
    (a b c d : value) (courses : list value) (w : wire) :
  truthy (apiKey cfg) = false ->
  generateComprehensiveNote fetch cfg a b c d w
  = Run (Throw (Error "OpenAI API key not set.")) w [] /\
  generateCourseContent fetch cfg a b c w
  = Run (Throw (Error "OpenAI API key not set.")) w [] /\
  generateChatResponse fetch cfg a courses w
  = Run (Throw (Error "OpenAI API key not set.")) w [] /\
  generateAdditionalQuizQuestions fetch cfg a b c w
  = Run (Throw (Error "OpenAI API key not set.")) w [].
Proof.
  intros Hkey.
  unfold generateComprehensiveNote, generateCourseContent, generateChatResponse,
    generateAdditionalQuizQuestions, key_missing, config_error.
  rewrite Hkey. repeat split; reflexivity.
Qed.

Lemma generation_without_api_key_witness :
  generateComprehensiveNote (J := ecma_JSON) scripted unset_config
    (VStr "Rust") (VStr "Ownership") (VStr "- moves") (VStr "borrowing")
    (Wire [ http_ok (envelope (VStr "note")) ] [])
  = Run (Throw (Error "OpenAI API key not set."))
        (Wire [ http_ok (envelope (VStr "note")) ] []) [] /\
  generateCourseContent (J := ecma_JSON) scripted unset_config
    (VStr "Rust") (VStr "Ownership") (VStr "- moves")
    (Wire [ http_ok (envelope (VStr "note")) ] [])
  = Run (Throw (Error "OpenAI API key not set."))
        (Wire [ http_ok (envelope (VStr "note")) ] []) [] /\
  generateChatResponse (J := ecma_JSON) scripted unset_config
    (VStr "Rust") [ VNull ]
    (Wire [ http_ok (envelope (VStr "note")) ] [])
  = Run (Throw (Error "OpenAI API key not set."))
        (Wire [ http_ok (envelope (VStr "note")) ] []) [] /\
  generateAdditionalQuizQuestions (J := ecma_JSON) scripted unset_config
    (VStr "Rust") (VStr "Ownership") (VStr "- moves")
    (Wire [ http_ok (envelope (VStr "note")) ] [])
  = Run (Throw (Error "OpenAI API key not set."))
        (Wire [ http_ok (envelope (VStr "note")) ] []) [].
Proof.
  apply (generation_fails_fast_without_api_key (J := ecma_JSON) scripted unset_config
           (VStr "Rust") (VStr "Ownership") (VStr "- moves") (VStr "borrowing")
           [ VNull ] (Wire [ http_ok (envelope (VStr "note")) ] [])).
  reflexivity.
Defined.

(** C8.  The body of the request of a completion call is the serialization
    of [{ model, messages: [{ role: "user", content: prompt }] }], with one
    message, of role user, whose content is the prompt; every attempt of the
    call sends this same request, one per invocation; and a response without
    success status makes the attempt fail with an error whose [status] is
    the response's, which is the field the retry decision reads. *)
Theorem every_attempt_sends_the_same_request `{J : JSON} {Net : Type}
    (fetch : request -> Net -> completion response * Net) (cfg : config)
    (prompt : value) (expectJsonArg : option bool) (w : wire) :
  body (chat_request cfg prompt)
  = JSON_stringify
      (VObj [ ("model", model cfg);
              ("messages",
               VArr [ VObj [ ("role", VStr "user"); ("content", prompt) ] ]) ]) /\
  (exists k : nat,
      (1 <= k <= 3)%nat /\
      invocations (trace (callOpenRouterAPI fetch cfg prompt expectJsonArg w))
      = Z.of_nat k /\
      sent (world (callOpenRouterAPI fetch cfg prompt expectJsonArg w))
      = (sent w ++ repeat (chat_request cfg prompt) k)%list) /\
  (forall (w0 : wire) (res : response) (n : Net),
      fetch (chat_request cfg prompt) (net w0) = (Return res, n) ->
      ok res = false ->
      exists error,
        fst (send fetch cfg prompt w0) = Throw error /\
        get_prop error "status" = Return (VInt (status res)) /\
        isRetryable error
        = Return ((status res =? 503) || (status res =? 429) || (status res =? 500))).
Proof.
  split; [reflexivity |]. split.
  - destruct (call_keeps_run fetch cfg prompt expectJsonArg w) as (-> & ->).
    destruct (retry_shape (send fetch cfg prompt) None w) as (k & Hk & Hpos & -> & ->).
    simpl in Hk, Hpos.
    exists k. split; [split; [| lia] |].
    + assert (k <> O) by (apply Hpos; lia). lia.
    + rewrite invocations_backoff_trace, sent_after. split; reflexivity.
  - intros w0 res n Hfetch Hok.
    rewrite (send_http_failure fetch cfg prompt w0 res n Hfetch Hok).
    eexists. split; [reflexivity |]. split; [reflexivity |].
    apply isRetryable_tagged.
Qed.

Lemma same_request_witness :
  exists error,
    fst (send (J := ecma_JSON) scripted test_config (VStr "Hi")
           (Wire [ http_error 429 ] []))
    = Throw error /\
    get_prop error "status" = Return (VInt (status (http_error 429))) /\
    isRetryable error
    = Return ((status (http_error 429) =? 503) || (status (http_error 429) =? 429)
              || (status (http_error 429) =? 500)).
Proof.
  apply (proj2 (proj2 (every_attempt_sends_the_same_request (J := ecma_JSON)
                         scripted test_config (VStr "Hi") None
                         (Wire [ http_error 429 ] [])))
           (Wire [ http_error 429 ] []) (http_error 429) []);
    reflexivity.
Defined.

(** C9.  The fallback fires only for a block written exactly as three
    backquotes, the lowercase label json, a newline, the inner text, a
    newline and three backquotes; of all such blocks in the text it takes the
    one that opens first and closes soonest.  When a block is found and its
    inner text is not JSON either, what is raised is the exception of that
    inner parse; the service's own error is raised only when the text has no
    such block. *)
Theorem fenced_block_fallback_is_exact_and_first `{J : JSON} :
  (forall text inner,
      fence_search text = Some inner ->
      exists pre post,
        text = pre ++ "```json" ++ nl ++ inner ++ nl ++ "```" ++ post /\
        forall pre' inner' post',
          text = pre' ++ "```json" ++ nl ++ inner' ++ nl ++ "```" ++ post' ->
          (String.length pre <= String.length pre')%nat /\
          (String.length pre = String.length pre' ->
           (String.length inner <= String.length inner')%nat))
  /\
  (fence_search ("```JSON" ++ nl ++ a1_text ++ nl ++ "```") = None /\
   fence_search ("```" ++ nl ++ a1_text ++ nl ++ "```") = None /\
   fence_search ("```json " ++ a1_text ++ " ```") = None /\
   fence_search ("```json" ++ crlf ++ a1_text ++ crlf ++ "```") = None /\
   fence_search two_blocks = Some "[1]")
  /\
  (forall response content inner e1 e2,
      first_content response = Return (VStr content) ->
      JSON_parse content = Throw e1 ->
      fence_search content = Some inner ->
      JSON_parse inner = Throw e2 ->
      parse_reply response = Throw e2 /\
      (throws_only_SyntaxError J -> e2 <> parse_failure))
  /\
  (forall response,
      throws_only_SyntaxError J ->
      parse_reply response = Throw parse_failure ->
      exists content e,
        first_content response = Return (VStr content) /\
        JSON_parse content = Throw e /\
        fence_search content = None /\
        forall inner, ~ fenced_json content inner).
Proof.
  split; [| split; [| split]].
  - intros text inner H.
    destruct (fence_search_first text inner H) as (pre & post & Hs & Hmin).
    exists pre, post. split; [exact Hs |].
    intros pre' inner' post' Hs'. exact (Hmin pre' inner' post' Hs').
  - repeat split; reflexivity.
  - intros response content inner e1 e2 Hc Hp Hs Hi. split.
    + rewrite (parse_reply_fallback response e1 content Hc Hp). now rewrite Hs.
    + intros Hsyn Heq. destruct (Hsyn inner e2 Hi) as (m & props & Hm).
      rewrite Heq in Hm. unfold parse_failure, Error in Hm. discriminate Hm.
  - intros response Hsyn H.
    destruct (parse_failure_origin response Hsyn H) as (content & e & Hc & Hp & Hs).
    exists content, e. repeat split; auto.
    intros inner Hblock.
    destruct (fence_search_complete content inner Hblock) as (inner' & Hs').
    rewrite Hs in Hs'. discriminate Hs'.
Qed.

Lemma fenced_block_fallback_witness :
  (exists pre post,
      two_blocks = pre ++ "```json" ++ nl ++ "[1]" ++ nl ++ "```" ++ post /\
      forall pre' inner' post',
        two_blocks = pre' ++ "```json" ++ nl ++ inner' ++ nl ++ "```" ++ post' ->
        (String.length pre <= String.length pre')%nat /\
        (String.length pre = String.length pre' ->
         (String.length "[1]" <= String.length inner')%nat)) /\
  (parse_reply (J := ecma_JSON) (envelope (VStr broken_block)) = Throw malformed /\
   (throws_only_SyntaxError ecma_JSON -> malformed <> parse_failure)) /\
  (exists content e,
      first_content (envelope (VStr "I cannot help with that.")) = Return (VStr content) /\
      JSON_parse (JSON := ecma_JSON) content = Throw e /\
      fence_search content = None /\
      forall inner, ~ fenced_json content inner).
Proof.
  split; [| split].
  - apply (proj1 (@fenced_block_fallback_is_exact_and_first ecma_JSON) two_blocks "[1]").
    reflexivity.
  - apply (proj1 (proj2 (proj2 (@fenced_block_fallback_is_exact_and_first ecma_JSON)))
             (envelope (VStr broken_block)) broken_block "{oops" malformed malformed);
      reflexivity.
  - apply (proj2 (proj2 (proj2 (@fenced_block_fallback_is_exact_and_first ecma_JSON)))
             (envelope (VStr "I cannot help with that."))).
    + exact ecma_throws_only_SyntaxError.
    + reflexivity.
Defined.

(* ================================================================== *)
(** * Further properties of the service *)
(* ================================================================== *)

(** ** The retry decision, read backwards *)

Lemma isRetryable_true_inv (error : value) :
  isRetryable error = Return true -> retryable_status error.
Proof.
  unfold isRetryable, retryable_status, status_is.
  destruct (get_prop error "status") as [s | e] eqn:Hs; cbn [bind]; [| discriminate].
  destruct (strict_eq_num s 503) eqn:H503; [intros _; right; right; eauto |].
  destruct (strict_eq_num s 429) eqn:H429; [intros _; left; eauto |].
  destruct (strict_eq_num s 500) eqn:H500; [| discriminate].
  intros _. right; left; eauto.
Qed.

Lemma isRetryable_false_inv (error : value) :
  isRetryable error = Return false -> no_retryable_status error.
Proof.
  unfold isRetryable, no_retryable_status.
  destruct (get_prop error "status") as [s | e] eqn:Hs; cbn [bind]; [| discriminate].
  destruct (strict_eq_num s 503) eqn:H503; [discriminate |].
  destruct (strict_eq_num s 429) eqn:H429; [discriminate |].
  destruct (strict_eq_num s 500) eqn:H500; [discriminate |].
  intros _. exists s. split; [reflexivity |]. right. auto.
Qed.

Lemma isRetryable_throw_inv (error e : value) :
  isRetryable error = Throw e ->
  is_nullish error = true /\ exists message, e = TypeError message.
Proof.
  destruct (is_nullish error) eqn:Hn.
  - destruct error; try discriminate Hn; simpl; intros H; inversion H;
      split; try reflexivity; eexists; reflexivity.
  - unfold isRetryable.
    destruct (get_prop_returns error "status" Hn) as (s & ->). cbn [bind].
    destruct (strict_eq_num s 503); [discriminate |].
    destruct (strict_eq_num s 429); discriminate.
Qed.

Lemma retryable_not_final (error : value) :
  retryable_status error -> no_retryable_status error -> False.
Proof.
  intros Hr Hn. apply isRetryable_true in Hr. apply isRetryable_false in Hn.
  rewrite Hr in Hn. discriminate Hn.
Qed.

(** ** What a run can be *)

Lemma total_delay_retry_prefix (k : nat) :
  forall attempt,
    1 <= attempt ->
    total_delay (retry_prefix attempt k)
    = (2 ^ (attempt - 1 + Z.of_nat k) - 2 ^ (attempt - 1)) * 1000.
Proof.
  unfold total_delay.
  induction k as [| k IH]; intros attempt Hpos.
  - simpl. rewrite Z.add_0_r. lia.
  - cbn [retry_prefix delays fold_right]. rewrite IH by lia. unfold delayMs.
    replace (attempt + 1 - 1) with (Z.succ (attempt - 1)) by lia.
    replace (attempt - 1 + Z.of_nat (S k)) with (Z.succ (attempt - 1) + Z.of_nat k) by lia.
    rewrite (Z.pow_succ_r 2 (attempt - 1)) by lia. lia.
Qed.

Lemma total_delay_backoff_trace (k : nat) :
  total_delay (backoff_trace 1 k) = (2 ^ (Z.max 1 (Z.of_nat k) - 1) - 1) * 1000.
Proof.
  destruct k as [| k]; [reflexivity |].
  unfold backoff_trace, total_delay. rewrite delays_app. simpl (delays [Invoke]).
  rewrite app_nil_r. fold (total_delay (retry_prefix 1 k)).
  rewrite total_delay_retry_prefix by lia.
  replace (Z.max 1 (Z.of_nat (S k)) - 1) with (1 - 1 + Z.of_nat k) by lia.
  reflexivity.
Qed.

(** X1.  Whatever the operation does, a run makes at most [maxRetries]
    invocations (none for a budget below 1), and after [n] invocations it
    has waited [(2^(n-1) - 1) * 1000] ms in all: nothing for one invocation,
    1000 ms for two, 3000 ms for three. *)
Theorem retry_invocations_and_waiting_time_are_bounded
    {World : Type} (apiCall : @operation World) (maxRetriesArg : option Z) (w : World) :
  0 <= invocations (trace (retryWithExponentialBackoff apiCall maxRetriesArg w))
    <= Z.max 0 (budget maxRetriesArg) /\
  total_delay (trace (retryWithExponentialBackoff apiCall maxRetriesArg w))
  = (2 ^ (Z.max 1 (invocations
                     (trace (retryWithExponentialBackoff apiCall maxRetriesArg w))) - 1)
     - 1) * 1000 /\
  total_delay (trace (retryWithExponentialBackoff apiCall maxRetriesArg w))
  <= (2 ^ (Z.max 1 (budget maxRetriesArg) - 1) - 1) * 1000.
Proof.
  destruct (retry_shape apiCall maxRetriesArg w) as (k & Hk & _ & Htrace & _).
  rewrite Htrace, invocations_backoff_trace, total_delay_backoff_trace.
  split; [lia |]. split; [reflexivity |].
  apply Z.mul_le_mono_nonneg_r; [lia |].
  apply Z.sub_le_mono_r. apply Z.pow_le_mono_r; lia.
Qed.

(** The run from the first attempt on, case by case. *)
Lemma attempts_cases {World : Type} (apiCall : @operation World) (maxRetries : Z)
    (remaining : nat) :
  forall attempt lastError w tr,
    attempt + Z.of_nat remaining = maxRetries + 1 ->
    remaining <> O ->
    exists k : nat,
      (k < remaining)%nat /\
      (forall i, (i < k)%nat ->
         exists e, settles apiCall i w = Throw e /\ retryable_status e) /\
      trace (attempts apiCall maxRetries remaining attempt lastError w tr)
      = (tr ++ backoff_trace attempt (S k))%list /\
      world (attempts apiCall maxRetries remaining attempt lastError w tr)
      = world_after apiCall (S k) w /\
      (outcome (attempts apiCall maxRetries remaining attempt lastError w tr)
       = settles apiCall k w /\
       (final_outcome (settles apiCall k w) \/ S k = remaining)
       \/
       exists e message,
         settles apiCall k w = Throw e /\ is_nullish e = true /\
         outcome (attempts apiCall maxRetries remaining attempt lastError w tr)
         = Throw (TypeError message)).
Proof.
  induction remaining as [| remaining IH]; intros attempt lastError w tr Hinv Hnz;
    [congruence |].
  cbn [attempts].
  destruct (apiCall w) as [settled w1] eqn:Hcall.
  assert (H0 : settles apiCall O w = settled) by (unfold settles; simpl; now rewrite Hcall).
  assert (Hw : world_after apiCall 1 w = w1) by (simpl; now rewrite Hcall).
  destruct settled as [result | error].
  - exists O. split; [lia |]. split; [intros i Hi; lia |].
    cbn [outcome trace world]. rewrite H0, Hw.
    repeat split. left. split; [reflexivity | left; exact I].
  - destruct (isRetryable error) as [[|] | e] eqn:Hre.
    + destruct (attempt =? maxRetries) eqn:Hlast.
      * apply Z.eqb_eq in Hlast.
        exists O. split; [lia |]. split; [intros i Hi; lia |].
        cbn [outcome trace world]. rewrite H0, Hw.
        repeat split. left. split; [reflexivity | right; lia].
      * apply Z.eqb_neq in Hlast.
        destruct (IH (attempt + 1) error w1
                    ((tr ++ [Invoke]) ++ [Sleep (delayMs attempt)])%list)
          as (k & Hk & Hfail & Htrace & Hworld & Hout); [lia | lia |].
        exists (S k). split; [lia |]. split; [| split; [| split]].
        -- intros i Hi. destruct i as [| i].
           ++ exists error. split; [exact H0 | now apply isRetryable_true_inv].
           ++ destruct (Hfail i) as (e & He & Hr); [lia |].
              exists e. split; [| exact Hr].
              rewrite <- He. unfold settles. simpl. now rewrite Hcall.
        -- rewrite Htrace. unfold backoff_trace. cbn [retry_prefix].
           now rewrite <- !app_assoc.
        -- rewrite Hworld. cbn [world_after]. now rewrite Hcall.
        -- assert (Hs : settles apiCall (S k) w = settles apiCall k w1)
             by (unfold settles; simpl; now rewrite Hcall).
           rewrite Hs.
           destruct Hout as [(Ho & Hfin) | (e & m & He & Hn & Ho)].
           ++ left. split; [exact Ho |]. destruct Hfin as [Hfin | Hfin];
                [left; exact Hfin | right; lia].
           ++ right. now exists e, m.
    + exists O. split; [lia |]. split; [intros i Hi; lia |].
      cbn [outcome trace world]. rewrite H0, Hw.
      repeat split. left. split; [reflexivity |]. left. simpl.
      intros Hr. apply isRetryable_true in Hr. rewrite Hr in Hre. discriminate Hre.
    + destruct (isRetryable_throw_inv error e Hre) as (Hn & m & ->).
      exists O. split; [lia |]. split; [intros i Hi; lia |].
      cbn [outcome trace world]. rewrite Hw.
      repeat split. right. exists error, m. now rewrite H0.
Qed.

(** X2.  The outcome of a run is what the last invocation settled to: a run
    with a budget of at least one attempt makes [n >= 1] invocations, all but
    the last of which failed with a retryable status, and returns the result
    or raises the error of invocation [n], an earlier error never taking its
    place.  The one exception is a thrown [null] or [undefined], for which a
    TypeError is raised. *)
Theorem retry_outcome_is_the_last_settlement
    {World : Type} (apiCall : @operation World) (maxRetriesArg : option Z) (w : World) :
  1 <= budget maxRetriesArg ->
  exists k : nat,
    Z.of_nat (S k) <= budget maxRetriesArg /\
    (forall i, (i < k)%nat ->
       exists e, settles apiCall i w = Throw e /\ retryable_status e) /\
    invocations (trace (retryWithExponentialBackoff apiCall maxRetriesArg w))
    = Z.of_nat (S k) /\
    world (retryWithExponentialBackoff apiCall maxRetriesArg w)
    = world_after apiCall (S k) w /\
    (outcome (retryWithExponentialBackoff apiCall maxRetriesArg w) = settles apiCall k w
     \/
     exists e message,
       settles apiCall k w = Throw e /\ is_nullish e = true /\
       outcome (retryWithExponentialBackoff apiCall maxRetriesArg w)
       = Throw (TypeError message)).
Proof.
  intros Hpos. unfold retryWithExponentialBackoff.
  destruct (attempts_cases apiCall (budget maxRetriesArg)
              (Z.to_nat (budget maxRetriesArg)) 1 VUndefined w [])
    as (k & Hk & Hfail & Htrace & Hworld & Hout); [lia | lia |].
  exists k. split; [lia |]. split; [exact Hfail |].
  rewrite Htrace, Hworld. cbn [app]. rewrite invocations_backoff_trace.
  split; [reflexivity |]. split; [reflexivity |].
  destruct Hout as [(Ho & _) | Hnull]; [left; exact Ho | right; exact Hnull].
Qed.

Lemma retry_outcome_witness :
  exists k : nat,
    Z.of_nat (S k) <= budget None /\
    (forall i, (i < k)%nat ->
       exists e,
         settles replay i [ Throw (VError "Error" "busy" [ ("status", VInt 429) ]);
                            Return (VStr "ok") ] = Throw e /\ retryable_status e) /\
    invocations
      (trace (retryWithExponentialBackoff replay None
                [ Throw (VError "Error" "busy" [ ("status", VInt 429) ]);
                  Return (VStr "ok") ]))
    = Z.of_nat (S k) /\
    world (retryWithExponentialBackoff replay None
             [ Throw (VError "Error" "busy" [ ("status", VInt 429) ]); Return (VStr "ok") ])
    = world_after replay (S k)
        [ Throw (VError "Error" "busy" [ ("status", VInt 429) ]); Return (VStr "ok") ] /\
    (outcome (retryWithExponentialBackoff replay None
                [ Throw (VError "Error" "busy" [ ("status", VInt 429) ]);
                  Return (VStr "ok") ])
     = settles replay k
         [ Throw (VError "Error" "busy" [ ("status", VInt 429) ]); Return (VStr "ok") ]
     \/
     exists e message,
       settles replay k
         [ Throw (VError "Error" "busy" [ ("status", VInt 429) ]); Return (VStr "ok") ]
       = Throw e /\ is_nullish e = true /\
       outcome (retryWithExponentialBackoff replay None
                  [ Throw (VError "Error" "busy" [ ("status", VInt 429) ]);
                    Return (VStr "ok") ])
       = Throw (TypeError message)).
Proof.
  apply (retry_outcome_is_the_last_settlement replay None
           [ Throw (VError "Error" "busy" [ ("status", VInt 429) ]); Return (VStr "ok") ]).
  simpl. lia.
Defined.

(** X3.  A failure without a retryable status ends the run at whatever
    attempt it happens: after [k] retryable failures, the error of attempt
    [k + 1] is raised as it is, the operation is not invoked again although
    attempts are left, and no delay follows. *)
Theorem retry_stops_at_the_first_non_retryable_failure
    {World : Type} (apiCall : @operation World) (maxRetriesArg : option Z) (w : World)
    (k : nat) (error : value) :
  Z.of_nat k < budget maxRetriesArg ->
  (forall i, (i < k)%nat ->
     exists e, settles apiCall i w = Throw e /\ retryable_status e) ->
  settles apiCall k w = Throw error ->
  no_retryable_status error ->
  retryWithExponentialBackoff apiCall maxRetriesArg w
  = Run (Throw error) (world_after apiCall (S k) w) (backoff_trace 1 (S k)).
Proof.
  intros Hk Hfail Hth Hno.
  now apply retry_gives_up_at.
Qed.

Lemma retry_stops_witness :
  retryWithExponentialBackoff replay (Some 5)
    [ Throw (VError "Error" "busy" [ ("status", VInt 503) ]);
      Throw (VError "Error" "gone" [ ("status", VInt 404) ]);
      Return (VStr "never asked for") ]
  = Run (Throw (VError "Error" "gone" [ ("status", VInt 404) ]))
        (world_after replay 2
           [ Throw (VError "Error" "busy" [ ("status", VInt 503) ]);
             Throw (VError "Error" "gone" [ ("status", VInt 404) ]);
             Return (VStr "never asked for") ])
        (backoff_trace 1 2).
Proof.
  apply (retry_stops_at_the_first_non_retryable_failure replay (Some 5)
           [ Throw (VError "Error" "busy" [ ("status", VInt 503) ]);
             Throw (VError "Error" "gone" [ ("status", VInt 404) ]);
             Return (VStr "never asked for") ] 1%nat).
  - simpl. lia.
  - intros i Hi. assert (i = O) by lia. subst i.
    eexists. split; [reflexivity |]. right; right. eexists. split; reflexivity.
  - reflexivity.
  - eexists. split; [reflexivity |]. right. repeat split; reflexivity.
Defined.

(** X5.  The status is compared with [===]: a status that is not a number
    (the string "503", say) is never a reason to retry, and the error is
    raised after the one invocation. *)
Theorem retry_does_not_coerce_the_status
    {World : Type} (apiCall : @operation World) (maxRetriesArg : option Z)
    (w w1 : World) (error s : value) :
  1 <= budget maxRetriesArg ->
  apiCall w = (Throw error, w1) ->
  get_prop error "status" = Return s ->
  (forall n, s <> VNum n) ->
  retryWithExponentialBackoff apiCall maxRetriesArg w = Run (Throw error) w1 [Invoke].
Proof.
  intros Hpos Hcall Hs Hnot.
  assert (Hno : no_retryable_status error).
  { exists s. split; [exact Hs |]. right.
    destruct s; try (repeat split; reflexivity). exfalso. now apply (Hnot n). }
  rewrite (retry_gives_up_at apiCall maxRetriesArg w O error).
  - simpl. now rewrite Hcall.
  - lia.
  - intros i Hi. lia.
  - unfold settles. simpl. now rewrite Hcall.
  - exact Hno.
Qed.

Lemma retry_does_not_coerce_witness :
  retryWithExponentialBackoff replay None
    [ Throw (VError "Error" "busy" [ ("status", VStr "503") ]); Return (VStr "late") ]
  = Run (Throw (VError "Error" "busy" [ ("status", VStr "503") ]))
        [ Return (VStr "late") ] [Invoke].
Proof.
  apply (retry_does_not_coerce_the_status replay None
           [ Throw (VError "Error" "busy" [ ("status", VStr "503") ]); Return (VStr "late") ]
           [ Return (VStr "late") ]
           (VError "Error" "busy" [ ("status", VStr "503") ]) (VStr "503")).
  - simpl. lia.
  - reflexivity.
  - reflexivity.
  - intros n H. discriminate H.
Defined.

Lemma attempts_larger_budget {World : Type} (apiCall : @operation World) (m m' : Z) :
  m <= m' ->
  forall remaining rem' attempt lastError w tr,
    remaining <> O ->
    attempt + Z.of_nat remaining = m + 1 ->
    attempt + Z.of_nat rem' = m' + 1 ->
    final_outcome (outcome (attempts apiCall m remaining attempt lastError w tr)) ->
    attempts apiCall m' rem' attempt lastError w tr
    = attempts apiCall m remaining attempt lastError w tr.
Proof.
  intros Hle.
  induction remaining as [| remaining IH];
    intros rem' attempt lastError w tr Hnz Hinv Hinv' Hfin; [congruence |].
  destruct rem' as [| rem']; [lia |].
  cbn [attempts] in *.
  destruct (apiCall w) as [[result | error] w1]; [reflexivity |].
  destruct (isRetryable error) as [[|] | e] eqn:Hre; try reflexivity.
  destruct (attempt =? m) eqn:Hlast.
  - exfalso. cbn [outcome final_outcome] in Hfin.
    apply Hfin. now apply isRetryable_true_inv.
  - apply Z.eqb_neq in Hlast.
    replace (attempt =? m') with false by (symmetry; apply Z.eqb_neq; lia).
    apply IH; auto; lia.
Qed.

(** X6.  A run that ended with a result, or with an error that is not
    retryable, is the same under any larger budget: outcome, invocations,
    delays and world. *)
Theorem larger_budget_keeps_a_final_run
    {World : Type} (apiCall : @operation World) (small large : option Z) (w : World) :
  1 <= budget small <= budget large ->
  final_outcome (outcome (retryWithExponentialBackoff apiCall small w)) ->
  retryWithExponentialBackoff apiCall large w = retryWithExponentialBackoff apiCall small w.
Proof.
  intros Hb Hfin. unfold retryWithExponentialBackoff in *.
  apply attempts_larger_budget; auto; lia.
Qed.

Lemma larger_budget_witness :
  retryWithExponentialBackoff (flaky 2 (VStr "ok")) (Some 10) O
  = retryWithExponentialBackoff (flaky 2 (VStr "ok")) None O.
Proof.
  apply (larger_budget_keeps_a_final_run (flaky 2 (VStr "ok")) None (Some 10) O).
  - simpl. lia.
  - exact I.
Defined.

(** X4.  A thrown [null] or [undefined] has no [status] to read: at
    whatever attempt the operation rejects with one, the run ends there with
    the TypeError of the failed read in place of the thrown value, without
    another invocation or delay. *)
Theorem retry_replaces_a_thrown_nullish_by_a_TypeError
    {World : Type} (apiCall : @operation World) (maxRetriesArg : option Z) (w : World)
    (k : nat) (error : value) :
  Z.of_nat k < budget maxRetriesArg ->
  (forall i, (i < k)%nat ->
     exists e, settles apiCall i w = Throw e /\ retryable_status e) ->
  settles apiCall k w = Throw error ->
  is_nullish error = true ->
  exists message,
    retryWithExponentialBackoff apiCall maxRetriesArg w
    = Run (Throw (TypeError message)) (world_after apiCall (S k) w)
          (backoff_trace 1 (S k)).
Proof.
  intros Hk Hfail Hth Hnull.
  destruct (isRetryable_nullish error Hnull) as (message & Hmsg).
  exists message.
  destruct (retry_after_failures apiCall maxRetriesArg w k Hk Hfail) as (le & ->).
  destruct (Z.to_nat (budget maxRetriesArg) - k)%nat as [| n] eqn:Hn; [lia |].
  cbn [attempts]. rewrite world_after_succ. unfold settles in Hth.
  destruct (apiCall (world_after apiCall k w)) as [settled w1].
  simpl in Hth; subst settled. now rewrite Hmsg.
Qed.

Lemma retry_replaces_a_thrown_nullish_witness :
  exists message,
    retryWithExponentialBackoff replay None
      [ Throw (VError "Error" "busy" [ ("status", VInt 500) ]); Throw VNull;
        Return (VStr "late") ]
    = Run (Throw (TypeError message))
          (world_after replay 2
             [ Throw (VError "Error" "busy" [ ("status", VInt 500) ]); Throw VNull;
               Return (VStr "late") ])
          (backoff_trace 1 2).
Proof.
  apply (retry_replaces_a_thrown_nullish_by_a_TypeError replay None
           [ Throw (VError "Error" "busy" [ ("status", VInt 500) ]); Throw VNull;
             Return (VStr "late") ] 1%nat VNull).
  - simpl. lia.
  - intros i Hi. assert (i = O) by lia. subst i.
    eexists. split; [reflexivity |]. right; left. eexists. split; reflexivity.
  - reflexivity.
  - reflexivity.
Defined.

(* ================================================================== *)
(** ** The completion client, further *)
(* ================================================================== *)


Lemma http_failure_final (res : response) :
  status res <> 429 -> status res <> 500 -> status res <> 503 ->
  no_retryable_status (http_failure res).
Proof.
  intros H429 H500 H503. apply isRetryable_false_inv. unfold http_failure.
  rewrite isRetryable_tagged.
  apply Z.eqb_neq in H429, H500, H503. now rewrite H429, H500, H503.
Qed.

Section ClientRuns.

Context `{J : JSON}.
Context {Net : Type}.
Variable fetch : request -> Net -> completion response * Net.
Variable cfg : config.

(** A run of the executor that fails is the run of the call. *)
Lemma call_of_failed_run (prompt e : value) (expectJsonArg : option bool) (w : wire) :
  outcome (retryWithExponentialBackoff (send fetch cfg prompt) None w) = Throw e ->
  callOpenRouterAPI fetch cfg prompt expectJsonArg w
  = retryWithExponentialBackoff (send fetch cfg prompt) None w.
Proof.
  intros H. unfold callOpenRouterAPI. now rewrite H.
Qed.

(** An attempt that fails without a retryable status is the whole call. *)
Lemma call_fails_at_once (prompt e : value) (expectJsonArg : option bool) (w w1 : wire) :
  send fetch cfg prompt w = (Throw e, w1) ->
  no_retryable_status e ->
  callOpenRouterAPI fetch cfg prompt expectJsonArg w = Run (Throw e) w1 [Invoke].
Proof.
  intros Hsend Hno.
  assert (Hrun : retryWithExponentialBackoff (send fetch cfg prompt) None w
                 = Run (Throw e) w1 [Invoke]).
  { rewrite (retry_gives_up_at (send fetch cfg prompt) None w O e).
    - simpl. now rewrite Hsend.
    - simpl. lia.
    - intros i Hi. lia.
    - unfold settles. simpl. now rewrite Hsend.
    - exact Hno. }
  rewrite (call_of_failed_run prompt e expectJsonArg w); rewrite Hrun; reflexivity.
Qed.

(** The requests of a call: between one and three copies of one request. *)
Lemma call_sent (prompt : value) (expectJsonArg : option bool) (w : wire) :
  exists k : nat,
    (1 <= k <= 3)%nat /\
    trace (callOpenRouterAPI fetch cfg prompt expectJsonArg w) = backoff_trace 1 k /\
    sent (world (callOpenRouterAPI fetch cfg prompt expectJsonArg w))
    = (sent w ++ repeat (chat_request cfg prompt) k)%list.
Proof.
  destruct (call_keeps_run fetch cfg prompt expectJsonArg w) as (-> & ->).
  destruct (retry_shape (send fetch cfg prompt) None w) as (k & Hk & Hpos & -> & ->).
  simpl in Hk, Hpos. exists k. split.
  - assert (k <> O) by (apply Hpos; lia). lia.
  - split; [reflexivity | apply sent_after].
Qed.

End ClientRuns.



(** X8.  A response without success status whose status is none of 429, 500
    and 503 (a 401 or a 404, say) fails the call at once with the error made
    of it: one request, no delay, in either mode. *)
Theorem call_fails_at_once_on_other_http_errors `{J : JSON} {Net : Type}
    (fetch : request -> Net -> completion response * Net) (cfg : config)
    (prompt : value) (expectJsonArg : option bool) (w : wire)
    (res : response) (n : Net) :
  fetch (chat_request cfg prompt) (net w) = (Return res, n) ->
  ok res = false ->
  status res <> 429 -> status res <> 500 -> status res <> 503 ->
  callOpenRouterAPI fetch cfg prompt expectJsonArg w
  = Run (Throw (http_failure res))
        (Wire n (sent w ++ [ chat_request cfg prompt ])%list) [Invoke].
Proof.
  intros Hfetch Hok H429 H500 H503.
  apply call_fails_at_once; [| now apply http_failure_final].
  unfold send. now rewrite Hfetch, Hok.
Qed.

Lemma call_fails_at_once_witness :
  callOpenRouterAPI (J := ecma_JSON) scripted test_config (VStr "Hi") None
    (Wire [ http_error 401; http_ok (envelope (VStr "late")) ] [])
  = Run (Throw (http_failure (http_error 401)))
        (Wire [ http_ok (envelope (VStr "late")) ]
              ([] ++ [ chat_request (J := ecma_JSON) test_config (VStr "Hi") ])%list)
        [Invoke].
Proof.
  apply (call_fails_at_once_on_other_http_errors (J := ecma_JSON) scripted test_config
           (VStr "Hi") None (Wire [ http_error 401; http_ok (envelope (VStr "late")) ] [])
           (http_error 401) [ http_ok (envelope (VStr "late")) ]).
  - reflexivity.
  - reflexivity.
  - simpl. lia.
  - simpl. lia.
  - simpl. lia.
Defined.

(** X9.  A request that cannot be delivered ([fetch] rejects) and a success
    response whose body cannot be read ([res.json()] rejects) fail the call
    with that very error after the one request, when the error carries no
    retryable status: neither is retried, and the second is not reported as
    the service's parse failure. *)
Theorem call_propagates_transport_and_body_errors `{J : JSON} {Net : Type}
    (fetch : request -> Net -> completion response * Net) (cfg : config)
    (prompt : value) (expectJsonArg : option bool) (w : wire) (e : value) (n : Net) :
  no_retryable_status e ->
  (fetch (chat_request cfg prompt) (net w) = (Throw e, n) ->
   callOpenRouterAPI fetch cfg prompt expectJsonArg w
   = Run (Throw e) (Wire n (sent w ++ [ chat_request cfg prompt ])%list) [Invoke])
  /\
  (forall res,
      fetch (chat_request cfg prompt) (net w) = (Return res, n) ->
      ok res = true ->
      json res = Throw e ->
      callOpenRouterAPI fetch cfg prompt expectJsonArg w
      = Run (Throw e) (Wire n (sent w ++ [ chat_request cfg prompt ])%list) [Invoke]).
Proof.
  intros Hno. split.
  - intros Hfetch. apply call_fails_at_once; [| exact Hno].
    unfold send. now rewrite Hfetch.
  - intros res Hfetch Hok Hjson. apply call_fails_at_once; [| exact Hno].
    unfold send. now rewrite Hfetch, Hok, Hjson.
Qed.

Lemma call_propagates_witness :
  callOpenRouterAPI (J := ecma_JSON) unreachable test_config (VStr "Hi") (Some true)
    (Wire O [])
  = Run (Throw (VError "FetchError" "connect ECONNREFUSED" [ ("code", VStr "ECONNREFUSED") ]))
        (Wire 1%nat ([] ++ [ chat_request (J := ecma_JSON) test_config (VStr "Hi") ])%list)
        [Invoke]
  /\
  callOpenRouterAPI (J := ecma_JSON) scripted test_config (VStr "Hi") (Some true)
    (Wire [ http_garbled ] [])
  = Run (Throw (SyntaxError "Unexpected token < in JSON at position 0"))
        (Wire [] ([] ++ [ chat_request (J := ecma_JSON) test_config (VStr "Hi") ])%list)
        [Invoke].
Proof.
  split.
  - apply (proj1 (call_propagates_transport_and_body_errors (J := ecma_JSON) unreachable
                    test_config (VStr "Hi") (Some true) (Wire O [])
                    (VError "FetchError" "connect ECONNREFUSED"
                            [ ("code", VStr "ECONNREFUSED") ]) 1%nat
                    (ex_intro _ VUndefined (conj eq_refl (or_introl eq_refl))))).
    reflexivity.
  - apply (proj2 (call_propagates_transport_and_body_errors (J := ecma_JSON) scripted
                    test_config (VStr "Hi") (Some true) (Wire [ http_garbled ] [])
                    (SyntaxError "Unexpected token < in JSON at position 0") []
                    (ex_intro _ VUndefined (conj eq_refl (or_introl eq_refl))))
             http_garbled); reflexivity.
Defined.

(** X10.  In JSON mode the content is converted to a string before it is
    parsed, so a content that is not a string (a number, a list of parts) is
    returned parsed when its string form is JSON; when it is not, the
    fallback calls [match] on a value that has no such method and the call
    fails with a TypeError, not with the service's parse failure. *)
Theorem json_mode_converts_the_content_before_parsing `{J : JSON}
    (response text : value) :
  first_content response = Return text ->
  (forall s, text <> VStr s) ->
  (forall parsed,
      JSON_parse (ToString text) = Return parsed -> parse_reply response = Return parsed) /\
  (forall e,
      JSON_parse (ToString text) = Throw e ->
      parse_reply response = Throw (TypeError "text.match is not a function")).
Proof.
  intros Hc Hnot. unfold parse_reply. rewrite Hc. cbn [bind]. split.
  - intros parsed ->. reflexivity.
  - intros e ->. destruct text; try reflexivity. exfalso. now apply (Hnot s).
Qed.

Lemma json_mode_converts_witness :
  parse_reply (J := ecma_JSON) (envelope (VArr [ VInt 42 ])) = Return (VInt 42) /\
  parse_reply (J := ecma_JSON) parts_envelope
  = Throw (TypeError "text.match is not a function").
Proof.
  split.
  - apply (proj1 (json_mode_converts_the_content_before_parsing (J := ecma_JSON)
                    (envelope (VArr [ VInt 42 ])) (VArr [ VInt 42 ]) eq_refl
                    (fun s H => eq_ind (VArr [ VInt 42 ])
                                  (fun v => match v with VArr _ => True | _ => False end)
                                  I (VStr s) H))).
    reflexivity.
  - apply (proj2 (json_mode_converts_the_content_before_parsing (J := ecma_JSON)
                    parts_envelope
                    (VArr [ VObj [ ("type", VStr "text"); ("text", VStr a1_text) ] ])
                    eq_refl
                    (fun s H => eq_ind (VArr [ VObj [ ("type", VStr "text");
                                                       ("text", VStr a1_text) ] ])
                                  (fun v => match v with VArr _ => True | _ => False end)
                                  I (VStr s) H))
             malformed).
    reflexivity.
Defined.

Lemma first_content_truthy_or_empty (response v : value) :
  first_content response = Return v -> v = VStr "" \/ truthy v = true.
Proof.
  unfold first_content.
  destruct (get_prop response "choices") as [choices | e]; cbn [bind]; [| discriminate].
  destruct (opt_index0_returns choices) as (first & ->). cbn [bind].
  destruct (opt_prop_returns first "message") as (message & ->). cbn [bind].
  destruct (opt_prop_returns message "content") as (content & ->). cbn [bind].
  unfold js_or. intros H. inversion H.
  destruct (truthy content) eqn:Ht; [right; exact Ht | left; reflexivity].
Qed.

(** X11.  Outside JSON mode the call never returns [null], [undefined],
    [false] or [0]: its result is the empty string or a value that is truthy
    (a content that is falsy is replaced by the empty string). *)
Theorem plain_mode_result_is_empty_or_truthy `{J : JSON} {Net : Type}
    (fetch : request -> Net -> completion response * Net) (cfg : config)
    (prompt : value) (expectJsonArg : option bool) (w : wire) (v : value) :
  expectJsonArg = None \/ expectJsonArg = Some false ->
  outcome (callOpenRouterAPI fetch cfg prompt expectJsonArg w) = Return v ->
  v = VStr "" \/ truthy v = true.
Proof.
  intros Hmode. unfold callOpenRouterAPI.
  destruct (outcome (retryWithExponentialBackoff (send fetch cfg prompt) None w))
    as [response | e] eqn:Hout.
  - destruct Hmode as [-> | ->]; cbn [outcome]; apply first_content_truthy_or_empty.
  - rewrite Hout. discriminate.
Qed.

Lemma plain_mode_result_witness :
  VStr "" = VStr "" \/ truthy (VStr "") = true.
Proof.
  apply (plain_mode_result_is_empty_or_truthy (J := ecma_JSON) scripted test_config
           (VStr "Hi") None (Wire [ http_ok (envelope (VInt 0)) ] []) (VStr "")).
  - left. reflexivity.
  - reflexivity.
Defined.

(** X12.  What a call can fail with: the error the executor's run ended
    with; a TypeError (the response body is [null], or the content searched
    is not a string); and, in JSON mode only, the service's parse failure or
    an exception of [JSON.parse]. *)
Theorem call_fails_in_four_ways_only `{J : JSON} {Net : Type}
    (fetch : request -> Net -> completion response * Net) (cfg : config)
    (prompt : value) (expectJsonArg : option bool) (w : wire) (e : value) :
  outcome (callOpenRouterAPI fetch cfg prompt expectJsonArg w) = Throw e ->
  outcome (retryWithExponentialBackoff (send fetch cfg prompt) None w) = Throw e \/
  (exists message, e = TypeError message) \/
  (expectJsonArg = Some true /\
   (e = parse_failure \/ exists text, JSON_parse text = Throw e)).
Proof.
  unfold callOpenRouterAPI.
  destruct (outcome (retryWithExponentialBackoff (send fetch cfg prompt) None w))
    as [response | e0] eqn:Hout.
  - destruct expectJsonArg as [[|] |]; cbn [outcome].
    + unfold parse_reply.
      destruct (first_content response) as [text | e1] eqn:Hc; cbn [bind].
      * destruct (JSON_parse (ToString text)) as [parsed | e2]; [discriminate |].
        destruct text; cbn [text_match bind];
          try (intros H; inversion H; right; left; eexists; reflexivity).
        destruct (fence_search s) as [inner |].
        -- intros H. right; right. split; [reflexivity |]. right. now exists inner.
        -- intros H. inversion H. right; right. split; [reflexivity | now left].
      * intros H. inversion H; subst e1. right; left.
        now apply (first_content_throws response).
    + intros H. right; left. now apply (first_content_throws response).
    + intros H. right; left. now apply (first_content_throws response).
  - rewrite Hout. intros H. now left.
Qed.

Lemma call_fails_witness :
  outcome (retryWithExponentialBackoff
             (send (J := ecma_JSON) scripted test_config (VStr "Hi")) None
             (Wire [ http_ok VNull ] []))
  = Throw (TypeError "Cannot read properties of null (reading 'choices')") \/
  (exists message,
      TypeError "Cannot read properties of null (reading 'choices')" = TypeError message) \/
  (None = Some true /\
   (TypeError "Cannot read properties of null (reading 'choices')" = parse_failure \/
    exists text,
      JSON_parse (JSON := ecma_JSON) text
      = Throw (TypeError "Cannot read properties of null (reading 'choices')"))).
Proof.
  apply (call_fails_in_four_ways_only (J := ecma_JSON) scripted test_config (VStr "Hi")
           None (Wire [ http_ok VNull ] [])).
  reflexivity.
Defined.

(* ================================================================== *)
(** ** Configuration and the generation functions *)
(* ================================================================== *)

Lemma course_line_of_object (c : value) :
  is_nullish c = false -> course_line c = Return (course_text c).
Proof.
  intros Hn. unfold course_line, course_text, read.
  destruct (get_prop_returns c "title" Hn) as (title & ->).
  destruct (get_prop_returns c "summary" Hn) as (summary & ->).
  reflexivity.
Qed.

Lemma course_lines_of_objects (courses : list value) :
  Forall (fun c => is_nullish c = false) courses ->
  course_lines courses = Return (map course_text courses).
Proof.
  induction 1 as [| c rest Hc _ IH]; [reflexivity |].
  cbn [course_lines map]. rewrite (course_line_of_object c Hc). cbn [bind].
  now rewrite IH.
Qed.

Lemma course_lines_with_nullish (courses : list value) :
  Exists (fun c => is_nullish c = true) courses ->
  exists message, course_lines courses = Throw (TypeError message).
Proof.
  induction courses as [| c rest IH]; intros Hex; [inversion Hex |].
  cbn [course_lines].
  destruct (is_nullish c) eqn:Hn.
  - destruct c; try discriminate Hn; eexists; reflexivity.
  - rewrite (course_line_of_object c Hn). cbn [bind].
    inversion Hex as [? ? Hc | ? ? Hrest]; subst; [congruence |].
    destruct (IH Hrest) as (message & ->). now exists message.
Qed.

Section GenerationFacts.

Context `{J : JSON}.
Context {Net : Type}.
Variable fetch : request -> Net -> completion response * Net.
Variable cfg : config.

(** With the key present a generation function is a call with a string
    prompt; the chat function may fail before, on its courses. *)
Lemma generations_are_calls (a b c d : value) (courses : list value) (w : wire) :
  truthy (apiKey cfg) = true ->
  (exists prompt,
      generateComprehensiveNote fetch cfg a b c d w
      = callOpenRouterAPI fetch cfg (VStr prompt) None w) /\
  (exists prompt,
      generateCourseContent fetch cfg a b c w
      = callOpenRouterAPI fetch cfg (VStr prompt) (Some true) w) /\
  (exists prompt,
      generateAdditionalQuizQuestions fetch cfg a b c w
      = callOpenRouterAPI fetch cfg (VStr prompt) (Some true) w) /\
  ((exists message, generateChatResponse fetch cfg a courses w
                    = Run (Throw (TypeError message)) w []) \/
   (exists prompt,
       generateChatResponse fetch cfg a courses w
       = callOpenRouterAPI fetch cfg (VStr prompt) None w)).
Proof.
  intros Hkey.
  unfold generateComprehensiveNote, generateCourseContent,
    generateAdditionalQuizQuestions, generateChatResponse, key_missing.
  rewrite Hkey. cbn [negb].
  split; [eexists; reflexivity |]. split; [eexists; reflexivity |].
  split; [eexists; reflexivity |].
  unfold contextInfo.
  destruct (0 <? Z.of_nat (Datatypes.length courses)).
  - destruct (course_lines courses) as [ls | e] eqn:Hls; cbn [bind].
    + right. eexists; reflexivity.
    + left.
      assert (Hex : exists message, e = TypeError message).
      { clear - Hls. revert e Hls.
        induction courses as [| c0 rest IH]; intros e Hls; [discriminate Hls |].
        cbn [course_lines] in Hls.
        destruct (is_nullish c0) eqn:Hn.
        - destruct c0; try discriminate Hn; simpl in Hls; inversion Hls;
            eexists; reflexivity.
        - rewrite (course_line_of_object c0 Hn) in Hls. cbn [bind] in Hls.
          destruct (course_lines rest) as [ls | e'] eqn:Hrest; cbn [bind] in Hls;
            [discriminate Hls |].
          inversion Hls; subst. now apply IH. }
      destruct Hex as (message & ->). now exists message.
  - right. eexists; reflexivity.
Qed.

Lemma call_trace_not_empty (prompt : value) (expectJsonArg : option bool) (w : wire) :
  trace (callOpenRouterAPI fetch cfg prompt expectJsonArg w) <> [].
Proof.
  destruct (call_sent fetch cfg prompt expectJsonArg w) as (k & Hk & -> & _).
  destruct k as [| k]; [lia |].
  unfold backoff_trace. intros H. apply app_eq_nil in H. destruct H as (_ & H).
  discriminate H.
Qed.

End GenerationFacts.

(** X13.  The generation functions fail with the configuration error
    exactly when OPENAI_API_KEY is unset or empty, which is also exactly
    when [initializeOpenRouter] answers [false]; with any other key they do
    not fail that way. *)
Theorem configuration_error_iff_key_unset_or_empty `{J : JSON} {Net : Type}
    (fetch : request -> Net -> completion response * Net)
    (env : string -> option string) (a b c d : value) (courses : list value) (w : wire) :
  ((env "OPENAI_API_KEY" = None \/ env "OPENAI_API_KEY" = Some "")
   <-> initializeOpenRouter (load_config env) = false) /\
  (initializeOpenRouter (load_config env) = false
   <-> generateComprehensiveNote fetch (load_config env) a b c d w
       = Run (Throw (Error "OpenAI API key not set.")) w []) /\
  (initializeOpenRouter (load_config env) = false
   <-> generateCourseContent fetch (load_config env) a b c w
       = Run (Throw (Error "OpenAI API key not set.")) w []) /\
  (initializeOpenRouter (load_config env) = false
   <-> generateChatResponse fetch (load_config env) a courses w
       = Run (Throw (Error "OpenAI API key not set.")) w []) /\
  (initializeOpenRouter (load_config env) = false
   <-> generateAdditionalQuizQuestions fetch (load_config env) a b c w
       = Run (Throw (Error "OpenAI API key not set.")) w []).
Proof.
  split.
  - unfold initializeOpenRouter, load_config. cbn [apiKey].
    destruct (env "OPENAI_API_KEY") as [key |]; cbn [env_value truthy].
    + destruct key as [| ch key]; simpl; split; intros H; auto;
        try discriminate H; destruct H as [H | H]; discriminate H.
    + split; auto.
  - assert (Hoff : initializeOpenRouter (load_config env) = false ->
                   key_missing (load_config env) = true).
    { unfold initializeOpenRouter, key_missing. now intros ->. }
    assert (Hcall : forall prompt flag,
               callOpenRouterAPI fetch (load_config env) prompt flag w
               <> Run (Throw (Error "OpenAI API key not set.")) w []).
    { intros prompt flag H.
      apply (call_trace_not_empty fetch (load_config env) prompt flag w).
      now rewrite H. }
    destruct (initializeOpenRouter (load_config env)) eqn:Hinit.
    + unfold initializeOpenRouter in Hinit.
      destruct (generations_are_calls fetch (load_config env) a b c d courses w Hinit)
        as ((p1 & H1) & (p2 & H2) & (p3 & H3) & H4).
      repeat split; try discriminate; intros H; exfalso.
      * rewrite H1 in H. now apply Hcall in H.
      * rewrite H2 in H. now apply Hcall in H.
      * destruct H4 as [(m & H4) | (p4 & H4)]; rewrite H4 in H.
        -- unfold TypeError, Error in H. discriminate H.
        -- now apply Hcall in H.
      * rewrite H3 in H. now apply Hcall in H.
    + specialize (Hoff eq_refl).
      unfold generateComprehensiveNote, generateCourseContent,
        generateAdditionalQuizQuestions, generateChatResponse, config_error.
      rewrite Hoff. repeat split; auto.
Qed.

(** X14.  The model of the configuration is never empty: it is
    OPENAI_MODEL when that is set and not empty, and [openai/gpt-4o]
    otherwise. *)
Theorem configured_model_is_never_empty (env : string -> option string) :
  exists m,
    model (load_config env) = VStr m /\ m <> "" /\
    (env "OPENAI_MODEL" = Some m \/
     ((env "OPENAI_MODEL" = None \/ env "OPENAI_MODEL" = Some "") /\ m = "openai/gpt-4o")).
Proof.
  unfold load_config. cbn [model].
  destruct (env "OPENAI_MODEL") as [given |]; cbn [env_value].
  - destruct given as [| ch given].
    + exists "openai/gpt-4o". repeat split; auto. discriminate.
    + exists (String ch given). repeat split; auto. discriminate.
  - exists "openai/gpt-4o". repeat split; auto. discriminate.
Qed.

(** X15.  Whatever a generation function sends is at most three copies of
    one request, whose single message has a string for content and whose
    Authorization header is [Bearer] followed by the configured key: a
    request with [Bearer undefined] or an empty key is never sent. *)
Theorem generation_requests_carry_the_key `{J : JSON} {Net : Type}
    (fetch : request -> Net -> completion response * Net)
    (env : string -> option string) (a b c d : value) (courses : list value) (w : wire) :
  forall r,
    In r [ generateComprehensiveNote fetch (load_config env) a b c d w;
           generateCourseContent fetch (load_config env) a b c w;
           generateChatResponse fetch (load_config env) a courses w;
           generateAdditionalQuizQuestions fetch (load_config env) a b c w ] ->
    exists (k : nat) (prompt : string),
      (k <= 3)%nat /\
      sent (world r)
      = (sent w ++ repeat (chat_request (load_config env) (VStr prompt)) k)%list /\
      (k <> O ->
       exists key,
         env "OPENAI_API_KEY" = Some key /\ key <> "" /\
         lookup "Authorization" (headers (chat_request (load_config env) (VStr prompt)))
         = Some (VStr ("Bearer " ++ key))).
Proof.
  intros r Hr.
  assert (Hnone : forall e,
             exists (k : nat) (prompt : string),
               (k <= 3)%nat /\
               sent (world (Run (Throw e) w []))
               = (sent w ++ repeat (chat_request (load_config env) (VStr prompt)) k)%list /\
               (k <> O ->
                exists key,
                  env "OPENAI_API_KEY" = Some key /\ key <> "" /\
                  lookup "Authorization"
                    (headers (chat_request (load_config env) (VStr prompt)))
                  = Some (VStr ("Bearer " ++ key)))).
  { intros e. exists O, "". split; [lia |]. split.
    - simpl. now rewrite app_nil_r.
    - congruence. }
  destruct (truthy (apiKey (load_config env))) eqn:Hkey.
  - assert (Hcall : forall prompt flag,
               exists (k : nat) (prompt' : string),
                 (k <= 3)%nat /\
                 sent (world (callOpenRouterAPI fetch (load_config env) (VStr prompt)
                                flag w))
                 = (sent w
                    ++ repeat (chat_request (load_config env) (VStr prompt')) k)%list /\
                 (k <> O ->
                  exists key,
                    env "OPENAI_API_KEY" = Some key /\ key <> "" /\
                    lookup "Authorization"
                      (headers (chat_request (load_config env) (VStr prompt')))
                    = Some (VStr ("Bearer " ++ key)))).
    { intros prompt flag.
      destruct (call_sent fetch (load_config env) (VStr prompt) flag w)
        as (k & Hk & _ & Hsent).
      exists k, prompt. split; [lia |]. split; [exact Hsent |]. intros _.
      unfold load_config in Hkey |- *. cbn [apiKey] in Hkey.
      destruct (env "OPENAI_API_KEY") as [key |]; [| discriminate Hkey].
      exists key. split; [reflexivity |]. split.
      - intros ->. discriminate Hkey.
      - reflexivity. }
    destruct (generations_are_calls fetch (load_config env) a b c d courses w Hkey)
      as ((p1 & H1) & (p2 & H2) & (p3 & H3) & H4).
    destruct Hr as [<- | [<- | [<- | [<- | []]]]].
    + rewrite H1. apply Hcall.
    + rewrite H2. apply Hcall.
    + destruct H4 as [(m & ->) | (p4 & ->)]; [apply Hnone | apply Hcall].
    + rewrite H3. apply Hcall.
  - assert (Hoff : key_missing (load_config env) = true)
      by (unfold key_missing; now rewrite Hkey).
    unfold generateComprehensiveNote, generateCourseContent,
      generateAdditionalQuizQuestions, generateChatResponse in Hr.
    rewrite Hoff in Hr.
    destruct Hr as [<- | [<- | [<- | [<- | []]]]]; apply Hnone.
Qed.

Lemma generation_requests_witness :
  exists (k : nat) (prompt : string),
    (k <= 3)%nat /\
    sent (world (generateCourseContent (J := ecma_JSON) scripted
                   (load_config (fun name =>
                                   if String.eqb name "OPENAI_API_KEY"
                                   then Some "sk-test" else None))
                   (VStr "Rust") (VStr "text") (VStr "Ownership")
                   (Wire [ http_error 503; http_ok (envelope (VStr a1_text)) ] [])))
    = ([] ++ repeat (chat_request (J := ecma_JSON)
                       (load_config (fun name =>
                                       if String.eqb name "OPENAI_API_KEY"
                                       then Some "sk-test" else None))
                       (VStr prompt)) k)%list /\
    (k <> O ->
     exists key,
       (if String.eqb "OPENAI_API_KEY" "OPENAI_API_KEY" then Some "sk-test" else None)
       = Some key /\ key <> "" /\
       lookup "Authorization"
         (headers (chat_request (J := ecma_JSON)
                     (load_config (fun name =>
                                     if String.eqb name "OPENAI_API_KEY"
                                     then Some "sk-test" else None))
                     (VStr prompt)))
       = Some (VStr ("Bearer " ++ key))).
Proof.
  apply (generation_requests_carry_the_key (J := ecma_JSON) scripted
           (fun name => if String.eqb name "OPENAI_API_KEY" then Some "sk-test" else None)
           (VStr "Rust") (VStr "text") (VStr "Ownership") VUndefined []
           (Wire [ http_error 503; http_ok (envelope (VStr a1_text)) ] [])).
  right. left. reflexivity.
Defined.

(** X16.  With the key present, the chat function fails before any request
    exactly when one of the courses is [null] or [undefined] (reading its
    title throws); when each course is an object the context has one line
    per course, in order, [No summary] standing for a summary that is
    missing or empty, and the function is a call in plain mode. *)
Theorem chat_fails_before_any_request_iff_a_course_is_nullish `{J : JSON} {Net : Type}
    (fetch : request -> Net -> completion response * Net) (cfg : config)
    (message : value) (courses : list value) (w : wire) :
  truthy (apiKey cfg) = true ->
  (Exists (fun c => is_nullish c = true) courses ->
   exists text,
     generateChatResponse fetch cfg message courses w
     = Run (Throw (TypeError text)) w []) /\
  (Forall (fun c => is_nullish c = false) courses ->
   contextInfo courses
   = Return (match courses with
             | [] => "The user has not enrolled in any courses yet."
             | _ :: _ =>
                 "The user is enrolled in these courses:" ++ nl
                 ++ String.concat nl (map course_text courses)
             end) /\
   exists prompt,
     generateChatResponse fetch cfg message courses w
     = callOpenRouterAPI fetch cfg (VStr prompt) None w).
Proof.
  intros Hkey. unfold generateChatResponse, key_missing. rewrite Hkey. cbn [negb].
  split.
  - intros Hex. unfold contextInfo.
    destruct courses as [| c0 rest]; [inversion Hex |].
    replace (0 <? Z.of_nat (Datatypes.length (c0 :: rest))) with true
      by (symmetry; apply Z.ltb_lt; simpl; lia).
    destruct (course_lines_with_nullish (c0 :: rest) Hex) as (text & ->).
    now exists text.
  - intros Hall.
    assert (Hinfo : contextInfo courses
                    = Return (match courses with
                              | [] => "The user has not enrolled in any courses yet."
                              | _ :: _ =>
                                  "The user is enrolled in these courses:" ++ nl
                                  ++ String.concat nl (map course_text courses)
                              end)).
    { unfold contextInfo. destruct courses as [| c0 rest]; [reflexivity |].
      replace (0 <? Z.of_nat (Datatypes.length (c0 :: rest))) with true
        by (symmetry; apply Z.ltb_lt; simpl; lia).
      rewrite (course_lines_of_objects (c0 :: rest) Hall). reflexivity. }
    split; [exact Hinfo |]. rewrite Hinfo. eexists. reflexivity.
Qed.

Lemma chat_fails_before_any_request_witness :
  (exists text,
      generateChatResponse (J := ecma_JSON) scripted test_config (VStr "Why?")
        [ VObj [ ("title", VStr "Rust") ]; VNull ]
        (Wire [ http_ok (envelope (VStr "Because.")) ] [])
      = Run (Throw (TypeError text)) (Wire [ http_ok (envelope (VStr "Because.")) ] []) [])
  /\
  contextInfo [ VObj [ ("title", VStr "Rust") ];
                VObj [ ("title", VStr "Go"); ("summary", VStr "Fast") ] ]
  = Return ("The user is enrolled in these courses:" ++ nl
            ++ String.concat nl
                 (map course_text
                    [ VObj [ ("title", VStr "Rust") ];
                      VObj [ ("title", VStr "Go"); ("summary", VStr "Fast") ] ])).
Proof.
  split.
  - apply (proj1 (chat_fails_before_any_request_iff_a_course_is_nullish (J := ecma_JSON)
                    scripted test_config (VStr "Why?")
                    [ VObj [ ("title", VStr "Rust") ]; VNull ]
                    (Wire [ http_ok (envelope (VStr "Because.")) ] []) eq_refl)).
    apply Exists_cons_tl. apply Exists_cons_hd. reflexivity.
  - apply (proj2 (chat_fails_before_any_request_iff_a_course_is_nullish (J := ecma_JSON)
                    scripted test_config (VStr "Why?")
                    [ VObj [ ("title", VStr "Rust") ];
                      VObj [ ("title", VStr "Go"); ("summary", VStr "Fast") ] ]
                    (Wire [ http_ok (envelope (VStr "Because.")) ] []) eq_refl)).
    repeat constructor.
Defined.

Lemma chat_of_object_courses_is_a_call `{J : JSON} {Net : Type}
    (fetch : request -> Net -> completion response * Net) (cfg : config)
    (message : value) (courses : list value) (w : wire) :
  truthy (apiKey cfg) = true ->
  Forall (fun c => is_nullish c = false) courses ->
  exists prompt,
    generateChatResponse fetch cfg message courses w
    = callOpenRouterAPI fetch cfg (VStr prompt) None w.
Proof.
  intros Hkey Hall. unfold generateChatResponse, key_missing. rewrite Hkey. cbn [negb].
  unfold contextInfo. destruct courses as [| c0 rest]; [eexists; reflexivity |].
  replace (0 <? Z.of_nat (Datatypes.length (c0 :: rest))) with true
    by (symmetry; apply Z.ltb_lt; simpl; lia).
  rewrite (course_lines_of_objects (c0 :: rest) Hall). eexists. reflexivity.
Qed.

(** X17.  Which functions parse: when the provider's first response is a
    success, the note and the chat functions return the content as plain
    mode does, even if it is JSON text, while the course and the quiz
    functions return what JSON mode extracts from it. *)
Theorem generation_functions_choose_the_mode `{J : JSON} {Net : Type}
    (fetch : request -> Net -> completion response * Net) (cfg : config)
    (a b c d : value) (courses : list value) (w : wire)
    (res : response) (n : Net) (reply : value) :
  truthy (apiKey cfg) = true ->
  Forall (fun course => is_nullish course = false) courses ->
  (forall req, fetch req (net w) = (Return res, n)) ->
  ok res = true ->
  json res = Return reply ->
  outcome (generateComprehensiveNote fetch cfg a b c d w) = first_content reply /\
  outcome (generateChatResponse fetch cfg a courses w) = first_content reply /\
  outcome (generateCourseContent fetch cfg a b c w) = parse_reply reply /\
  outcome (generateAdditionalQuizQuestions fetch cfg a b c w) = parse_reply reply.
Proof.
  intros Hkey Hall Hfetch Hok Hjson.
  assert (Hsend : forall prompt,
             send fetch cfg prompt w
             = (Return reply, Wire n (sent w ++ [ chat_request cfg prompt ])%list)).
  { intros prompt. unfold send. now rewrite Hfetch, Hok, Hjson. }
  destruct (generations_are_calls fetch cfg a b c d courses w Hkey)
    as ((p1 & H1) & (p2 & H2) & (p3 & H3) & _).
  destruct (chat_of_object_courses_is_a_call fetch cfg a courses w Hkey Hall)
    as (p4 & H4).
  rewrite H1, H2, H3, H4.
  rewrite !(call_after_first_success fetch cfg _ reply _ w _ (Hsend _)).
  repeat split; reflexivity.
Qed.

Lemma generation_modes_witness :
  outcome (generateComprehensiveNote (J := ecma_JSON) (steady (http_ok (envelope (VStr a1_text))))
             test_config (VStr "Rust") (VStr "Ownership") (VStr "- moves") (VStr "")
             (Wire O []))
  = first_content (envelope (VStr a1_text)) /\
  outcome (generateChatResponse (J := ecma_JSON) (steady (http_ok (envelope (VStr a1_text))))
             test_config (VStr "Rust") [] (Wire O []))
  = first_content (envelope (VStr a1_text)) /\
  outcome (generateCourseContent (J := ecma_JSON) (steady (http_ok (envelope (VStr a1_text))))
             test_config (VStr "Rust") (VStr "Ownership") (VStr "- moves") (Wire O []))
  = parse_reply (J := ecma_JSON) (envelope (VStr a1_text)) /\
  outcome (generateAdditionalQuizQuestions (J := ecma_JSON)
             (steady (http_ok (envelope (VStr a1_text))))
             test_config (VStr "Rust") (VStr "Ownership") (VStr "- moves") (Wire O []))
  = parse_reply (J := ecma_JSON) (envelope (VStr a1_text)).
Proof.
  apply (generation_functions_choose_the_mode (J := ecma_JSON)
           (steady (http_ok (envelope (VStr a1_text)))) test_config
           (VStr "Rust") (VStr "Ownership") (VStr "- moves") (VStr "") [] (Wire O [])
           (http_ok (envelope (VStr a1_text))) 1%nat (envelope (VStr a1_text))).
  - reflexivity.
  - constructor.
  - intros req. reflexivity.
  - reflexivity.
  - reflexivity.
Defined.

(* ================================================================== *)
(** ** The fenced-block pattern, further *)
(* ================================================================== *)

Lemma length_append (a b : string) :
  String.length (a ++ b) = (String.length a + String.length b)%nat.
Proof. induction a as [| x a IH]; simpl; [reflexivity | now rewrite IH]. Qed.

Lemma append_split_prefix (p : string) :
  forall rest u v,
    p ++ rest = u ++ v ->
    (String.length p <= String.length u)%nat ->
    exists u', u = p ++ u' /\ rest = u' ++ v.
Proof.
  induction p as [| x p IH]; intros rest u v Heq Hlen.
  - exists u. split; [reflexivity | exact Heq].
  - destruct u as [| y u]; [simpl in Hlen; lia |].
    cbn [append] in Heq. inversion Heq; subst y.
    destruct (IH rest u v) as (u' & -> & ->); [assumption | simpl in Hlen; lia |].
    now exists u'.
Qed.

Lemma strip_prefix_more (p : string) :
  forall s rest x, strip_prefix p s = Some rest -> strip_prefix p (s ++ x) = Some (rest ++ x).
Proof.
  intros s rest x H. apply strip_prefix_sound in H. subst s.
  rewrite append_assoc. apply strip_prefix_append.
Qed.

Lemma strip_prefix_none_more (p : string) :
  forall s x,
    strip_prefix p s = None ->
    (String.length p <= String.length s)%nat ->
    strip_prefix p (s ++ x) = None.
Proof.
  induction p as [| a p IH]; intros s x H Hlen; [discriminate H |].
  destruct s as [| b s]; [simpl in Hlen; lia |].
  cbn [strip_prefix append] in *.
  destruct (Ascii.eqb a b); [| reflexivity].
  apply IH; [exact H | simpl in Hlen; lia].
Qed.

Lemma lazy_any_then_at_once (close s rest : string) :
  strip_prefix close s = Some rest -> lazy_any_then close s = Some "".
Proof.
  intros H. destruct s; cbn [lazy_any_then]; now rewrite H.
Qed.

(** What follows the text searched does not change where the lazy group
    stops... *)
Lemma lazy_any_then_more (close : string) :
  forall s c x, lazy_any_then close s = Some c -> lazy_any_then close (s ++ x) = Some c.
Proof.
  induction s as [| a s IH]; intros c x H.
  - cbn [lazy_any_then] in H.
    destruct (strip_prefix close "") as [rest |] eqn:Hp; [| discriminate H].
    inversion H; subst c.
    apply (lazy_any_then_at_once close _ (rest ++ x)). now apply strip_prefix_more.
  - cbn [lazy_any_then] in H.
    destruct (strip_prefix close (String a s)) as [rest |] eqn:Hp.
    + inversion H; subst c.
      apply (lazy_any_then_at_once close _ (rest ++ x)). now apply strip_prefix_more.
    + destruct (lazy_any_then close s) as [c' |] eqn:Hrec; [| discriminate H].
      inversion H; subst c.
      destruct (lazy_any_then_sound close s c' Hrec) as (post & Hs).
      cbn [append lazy_any_then].
      change (String a (s ++ x)) with (String a s ++ x).
      rewrite (strip_prefix_none_more close (String a s) x Hp).
      * cbn [append]. now rewrite (IH c' x eq_refl).
      * rewrite Hs. simpl. rewrite !length_append. lia.
Qed.

Lemma fence_here_more (s c x : string) :
  fence_here s = Some c -> fence_here (s ++ x) = Some c.
Proof.
  unfold fence_here. intros H.
  destruct (strip_prefix fence_open s) as [rest |] eqn:Hp; [| discriminate H].
  rewrite (strip_prefix_more fence_open s rest x Hp).
  now apply lazy_any_then_more.
Qed.

(** ... nor where the search finds the first block. *)
Lemma fence_search_more :
  forall s inner x, fence_search s = Some inner -> fence_search (s ++ x) = Some inner.
Proof.
  induction s as [| a s IH]; intros inner x H; [discriminate H |].
  cbn [fence_search] in H. cbn [append fence_search].
  change (String a (s ++ x)) with (String a s ++ x).
  destruct (fence_here (String a s)) as [c |] eqn:Hh.
  - inversion H; subst c. now rewrite (fence_here_more _ _ x Hh).
  - assert (Hnone : fence_here (String a s ++ x) = None).
    { destruct (fence_search_sound s inner H) as (pre & post & Hs).
      unfold fence_here in Hh |- *.
      destruct (strip_prefix fence_open (String a s)) as [rest |] eqn:Hp.
      - exfalso. apply strip_prefix_sound in Hp.
        destruct (append_split_prefix fence_open rest
                    (String a pre ++ fence_open ++ inner) (fence_close ++ post))
          as (u' & _ & Hrest).
        + rewrite <- Hp, Hs. cbn [append]. now rewrite !append_assoc.
        + rewrite !length_append. simpl. lia.
        + destruct (lazy_any_then_shortest fence_close u' rest post Hrest)
            as (c' & Hc' & _).
          rewrite Hc' in Hh. discriminate Hh.
      - rewrite (strip_prefix_none_more fence_open (String a s) x Hp); [reflexivity |].
        rewrite Hs. simpl. rewrite !length_append. simpl. lia. }
    rewrite Hnone. cbn [append]. now apply IH.
Qed.

(** X18.  The text reported for a block never contains the closing
    delimiter (a newline followed by three backquotes): the block ends at
    the first one. *)
Theorem fenced_text_never_contains_the_closing_fence (text inner : string) :
  fence_search text = Some inner ->
  ~ exists a b, inner = a ++ nl ++ "```" ++ b.
Proof.
  intros H (a & b & Heq).
  destruct (fence_search_first text inner H) as (pre & post & Hs & Hmin).
  destruct (Hmin pre a (b ++ fence_close ++ post)) as (_ & Hlen).
  - rewrite Hs, Heq. f_equal. f_equal.
    change (nl ++ "```" ++ b) with (fence_close ++ b).
    now rewrite !append_assoc.
  - specialize (Hlen eq_refl). rewrite Heq in Hlen.
    rewrite !length_append in Hlen. simpl in Hlen. lia.
Qed.

Lemma fenced_text_witness :
  ~ exists a b, "[1]" = a ++ nl ++ "```" ++ b.
Proof.
  apply (fenced_text_never_contains_the_closing_fence two_blocks "[1]").
  reflexivity.
Defined.

(** X19.  What comes after the first block does not matter: a text that
    yields a block yields the same block when anything is appended to it (a
    second block, a closing remark). *)
Theorem text_after_the_first_block_is_ignored (text inner extra : string) :
  fence_search text = Some inner -> fence_search (text ++ extra) = Some inner.
Proof.
  apply fence_search_more.
Qed.

Lemma text_after_the_first_block_witness :
  fence_search (a1_fenced ++ nl ++ "```json" ++ nl ++ "[2]" ++ nl ++ "```")
  = Some a1_text.
Proof.
  apply (text_after_the_first_block_is_ignored a1_fenced a1_text
           (nl ++ "```json" ++ nl ++ "[2]" ++ nl ++ "```")).
  reflexivity.
Defined.

(* ================================================================== *)
(** * Properties of the sign-in forms *)
(* ================================================================== *)

Module AuthFacts.

Import Auth.

(** ** The pattern matcher *)

Lemma match_here_plus (a : atom) (re : list piece) :
  forall s,
    match_here (Plus a :: re) s = true <->
    exists u v,
      s = (u ++ v)%list /\ u <> [] /\ Forall (fun c => accepts a c = true) u /\
      match_here re v = true.
Proof.
  induction s as [| c s IH].
  - split; [discriminate |].
    intros (u & v & Hs & Hu & _). destruct u; [congruence | discriminate Hs].
  - cbn [match_here]. rewrite andb_true_iff, orb_true_iff, IH. split.
    + intros (Hc & [(u & v & -> & Hu & Hall & Hv) | Hv]).
      * exists (c :: u), v. repeat split; auto. discriminate.
      * exists [c], s. repeat split; auto. discriminate.
    + intros (u & v & Hs & Hu & Hall & Hv).
      destruct u as [| c0 u]; [congruence |].
      cbn [app] in Hs. inversion Hs; subst c0 s.
      inversion Hall as [| ? ? Hc Hrest]; subst.
      split; [exact Hc |].
      destruct u as [| c1 u]; [right; exact Hv |].
      left. exists (c1 :: u), v. repeat split; auto. discriminate.
Qed.

Lemma match_here_one (a : atom) (re : list piece) (s : list Z) :
  match_here (One a :: re) s = true <->
  exists c v, s = c :: v /\ accepts a c = true /\ match_here re v = true.
Proof.
  destruct s as [| c s]; cbn [match_here].
  - split; [discriminate | intros (c & v & H & _); discriminate H].
  - rewrite andb_true_iff. split.
    + intros (Hc & Hv). now exists c, s.
    + intros (c0 & v & H & Hc & Hv). inversion H; subst. auto.
Qed.

Lemma match_here_end (s : list Z) : match_here [] s = true.
Proof. destruct s; reflexivity. Qed.

Lemma search_spec (re : list piece) :
  forall s,
    search re s = true <-> exists pre v, s = (pre ++ v)%list /\ match_here re v = true.
Proof.
  induction s as [| c s IH]; cbn [search]; rewrite orb_true_iff.
  - split.
    + intros [H | H]; [| discriminate H]. now exists [], [].
    + intros (pre & v & Hs & Hv). left.
      destruct pre; [| discriminate Hs]. simpl in Hs. now subst v.
  - rewrite IH. split.
    + intros [H | (pre & v & -> & Hv)].
      * now exists [], (c :: s).
      * now exists (c :: pre), v.
    + intros (pre & v & Hs & Hv). destruct pre as [| c0 pre].
      * left. simpl in Hs. now subst v.
      * right. cbn [app] in Hs. inversion Hs; subst. now exists pre, v.
Qed.

Lemma word_accepts (u : list Z) :
  (u <> [] /\ Forall (fun c => accepts NonSpace c = true) u) <-> word u.
Proof.
  unfold word. cbn [accepts].
  assert (Hiff : forall c, negb (is_space c) = true <-> is_space c = false)
    by (intros c; destruct (is_space c); split; auto; discriminate).
  split; intros (Hne & Hall); (split; [exact Hne |]);
    eapply Forall_impl; try exact Hall; intros c Hc; now apply Hiff.
Qed.

Lemma address_iff (u : list Z) :
  search email_pattern u = true <-> has_address u.
Proof.
  unfold email_pattern, has_address. rewrite search_spec. split.
  - intros (pre & v & -> & Hv).
    apply match_here_plus in Hv. destruct Hv as (a & v1 & -> & Ha & Halla & Hv).
    apply match_here_one in Hv. destruct Hv as (c1 & v2 & -> & Hc1 & Hv).
    apply match_here_plus in Hv. destruct Hv as (b & v3 & -> & Hb & Hallb & Hv).
    apply match_here_one in Hv. destruct Hv as (c2 & v4 & -> & Hc2 & Hv).
    apply match_here_plus in Hv. destruct Hv as (c & post & -> & Hc & Hallc & _).
    cbn [accepts] in Hc1, Hc2. apply Z.eqb_eq in Hc1, Hc2. subst c1 c2.
    exists pre, a, b, c, post. split; [reflexivity |].
    repeat split; auto; apply word_accepts; auto.
  - intros (pre & a & b & c & post & -> & Ha & Hb & Hc).
    apply word_accepts in Ha, Hb, Hc.
    exists pre, (a ++ [64] ++ b ++ [46] ++ c ++ post)%list. split; [reflexivity |].
    apply match_here_plus. exists a, ([64] ++ b ++ [46] ++ c ++ post)%list.
    split; [reflexivity |]. split; [apply Ha |]. split; [apply Ha |].
    apply match_here_one. exists 64, (b ++ [46] ++ c ++ post)%list.
    split; [reflexivity |]. split; [reflexivity |].
    apply match_here_plus. exists b, ([46] ++ c ++ post)%list.
    split; [reflexivity |]. split; [apply Hb |]. split; [apply Hb |].
    apply match_here_one. exists 46, (c ++ post)%list.
    split; [reflexivity |]. split; [reflexivity |].
    apply match_here_plus. exists c, post.
    split; [reflexivity |]. split; [apply Hc |]. split; [apply Hc |].
    apply match_here_end.
Qed.

(** X20.  The email check accepts exactly the texts that contain, anywhere,
    one or more characters that are not white space, an at sign, one or more
    such characters, a dot and one or more such characters. *)
Theorem email_check_accepts_an_address_anywhere (u : list Z) :
  search email_pattern u = true <-> has_address u.
Proof.
  apply address_iff.
Qed.

(** X21.  The check is not anchored: a text that passes still passes with
    anything in front of it and after it (spaces, a second address, a
    sentence); and nothing shorter than five characters passes. *)
Theorem email_check_is_not_anchored (u : list Z) :
  search email_pattern u = true ->
  (forall before after, search email_pattern (before ++ u ++ after)%list = true) /\
  (5 <= List.length u)%nat.
Proof.
  intros H. apply address_iff in H.
  destruct H as (pre & a & b & c & post & -> & Ha & Hb & Hc). split.
  - intros before after. apply address_iff.
    exists (before ++ pre)%list, a, b, c, (post ++ after)%list.
    split; [| auto]. now rewrite <- !app_assoc.
  - destruct Ha as (Ha & _), Hb as (Hb & _), Hc as (Hc & _).
    rewrite !length_app.
    destruct a; [congruence |]. destruct b; [congruence |]. destruct c; [congruence |].
    simpl. lia.
Qed.

Lemma email_check_is_not_anchored_witness :
  (forall before after,
      search email_pattern (before ++ code_units "a@b.c" ++ after)%list = true) /\
  (5 <= List.length (code_units "a@b.c"))%nat.
Proof.
  apply (email_check_is_not_anchored (code_units "a@b.c")). reflexivity.
Defined.

(** ** Validation *)

Lemma has_address_not_empty : ~ has_address [].
Proof.
  intros (pre & a & b & c & post & H & (Ha & _) & _).
  symmetry in H. apply app_eq_nil in H. destruct H as (_ & H).
  apply app_eq_nil in H. destruct H as (H & _). contradiction.
Qed.

Lemma list_empty_test {A : Type} (l : list A) :
  (Z.of_nat (List.length l) =? 0) = match l with [] => true | _ => false end.
Proof. destruct l; reflexivity. Qed.

Lemma set_prop_not_empty (key : string) (v : value) (props : list (string * value)) :
  set_prop key v props <> [].
Proof.
  destruct props as [| [k x] rest]; simpl; [discriminate |].
  destruct (String.eqb k key); discriminate.
Qed.

Lemma validateForm_verdict (st : state) :
  snd (validateForm st) = match fst (validateForm st) with [] => true | _ => false end.
Proof.
  unfold validateForm. cbn [fst snd]. apply list_empty_test.
Qed.

Lemma validation_verdict (st : state) :
  (snd (validateForm st) = true <-> acceptable st) /\
  (fst (validateForm st) = [] <-> acceptable st).
Proof.
  assert (Hmain : fst (validateForm st) = [] <-> acceptable st).
  { unfold validateForm, acceptable, regex_test. cbn [fst].
    destruct (String.eqb (email (formData st)) "") eqn:He0.
    { apply String.eqb_eq in He0. rewrite He0.
      split.
      - intros H. exfalso.
        repeat match type of H with
               | context [if ?b then _ else _] => destruct b
               end; now apply set_prop_not_empty in H.
      - intros (Ha & _). now apply has_address_not_empty in Ha. }
    destruct (search email_pattern (code_units (email (formData st)))) eqn:He1;
      cbn [negb].
    2:{ split.
        - intros H. exfalso.
          repeat match type of H with
                 | context [if ?b then _ else _] => destruct b
                 end; now apply set_prop_not_empty in H.
        - intros (Ha & _). apply address_iff in Ha. congruence. }
    apply address_iff in He1.
    destruct (String.eqb (password (formData st)) "") eqn:Hp0.
    { apply String.eqb_eq in Hp0. rewrite Hp0. split.
      - intros H. exfalso.
        repeat match type of H with
               | context [if ?b then _ else _] => destruct b
               end; now apply set_prop_not_empty in H.
      - intros (_ & Hlen & _). unfold js_length in Hlen. simpl in Hlen. lia. }
    destruct (js_length (password (formData st)) <? 6) eqn:Hp1.
    { apply Z.ltb_lt in Hp1. split.
      - intros H. exfalso.
        repeat match type of H with
               | context [if ?b then _ else _] => destruct b
               end; now apply set_prop_not_empty in H.
      - intros (_ & Hlen & _). lia. }
    apply Z.ltb_ge in Hp1.
    destruct (isSignUp st) eqn:Hsu.
    2:{ split; [| reflexivity]. intros _.
        split; [exact He1 | split; [exact Hp1 | intros Habs; discriminate Habs]]. }
    destruct (String.eqb (name (formData st)) "") eqn:Hn0.
    { apply String.eqb_eq in Hn0. split.
      - intros H. exfalso.
        repeat match type of H with
               | context [if ?b then _ else _] => destruct b
               end; now apply set_prop_not_empty in H.
      - intros (_ & _ & Hs). destruct (Hs eq_refl) as (Hn & _). contradiction. }
    apply String.eqb_neq in Hn0.
    destruct (String.eqb (password (formData st)) (confirmPassword (formData st)))
      eqn:Hc0; cbn [negb].
    - apply String.eqb_eq in Hc0. split; [| reflexivity].
      intros _. repeat split; auto.
    - apply String.eqb_neq in Hc0. split.
      + intros H. now apply set_prop_not_empty in H.
      + intros (_ & _ & Hs). destruct (Hs eq_refl) as (_ & Hc). contradiction. }
  split; [| exact Hmain].
  rewrite <- Hmain, validateForm_verdict.
  destruct (fst (validateForm st)); split; intros H; try reflexivity; discriminate H.
Qed.


(** X22.  [validateForm] answers [true] exactly when the email contains an
    address, the password has at least six UTF-16 code units and, in
    sign-up mode, the name is not empty and the confirmation equals the
    password; and exactly then the errors it sets are empty.  In login mode
    the name and the confirmation play no part. *)
Theorem validation_accepts_exactly_the_acceptable_forms (st : state) :
  (snd (validateForm st) = true <-> acceptable st) /\
  (fst (validateForm st) = [] <-> acceptable st).
Proof.
  apply validation_verdict.
Qed.

(** ** Typing into an input *)

Lemma lookup_set_prop_same (key : string) (v : value) (props : list (string * value)) :
  lookup key (set_prop key v props) = Some v.
Proof.
  induction props as [| [k x] rest IH]; simpl.
  - now rewrite String.eqb_refl.
  - destruct (String.eqb k key) eqn:Hk; simpl; now rewrite Hk.
Qed.

Lemma lookup_set_prop_other (key other : string) (v : value)
    (props : list (string * value)) :
  other <> key -> lookup other (set_prop key v props) = lookup other props.
Proof.
  intros Hne. induction props as [| [k x] rest IH]; simpl.
  - apply String.eqb_neq in Hne. rewrite String.eqb_sym. now rewrite Hne.
  - destruct (String.eqb k key) eqn:Hk; simpl.
    + apply String.eqb_eq in Hk; subst k.
      replace (String.eqb key other) with false; [reflexivity |].
      symmetry. apply String.eqb_neq. congruence.
    + destruct (String.eqb k other); [reflexivity | exact IH].
Qed.

Lemma keys_set_prop_present (key : string) (v : value) (props : list (string * value)) :
  lookup key props <> None -> map fst (set_prop key v props) = map fst props.
Proof.
  induction props as [| [k x] rest IH]; simpl; [congruence |].
  destruct (String.eqb k key) eqn:Hk; simpl; [reflexivity |].
  intros H. now rewrite IH.
Qed.

Lemma field_name_injective (f g : field) : field_name f = field_name g -> f = g.
Proof. destruct f, g; simpl; intros H; try reflexivity; discriminate H. Qed.

(** X23.  Typing into an input sets that field and no other, and clears
    the message of that field and no other: after the change the field has
    no visible error, while its key stays in the errors object (with the
    empty string) and the other messages are as they were. *)
Theorem input_change_sets_one_field_and_clears_its_error
    (f : field) (v : string) (st : state) :
  get_field f (formData (handleInputChange f v st)) = v /\
  (forall g, g <> f ->
     get_field g (formData (handleInputChange f v st)) = get_field g (formData st)) /\
  truthy (error_of (field_name f) (errors (handleInputChange f v st))) = false /\
  (forall key, key <> field_name f ->
     error_of key (errors (handleInputChange f v st)) = error_of key (errors st)) /\
  map fst (errors (handleInputChange f v st)) = map fst (errors st) /\
  isSignUp (handleInputChange f v st) = isSignUp st /\
  isLoading (handleInputChange f v st) = isLoading st.
Proof.
  unfold handleInputChange. cbn [formData errors isSignUp isLoading].
  split; [destruct f; reflexivity |].
  split; [intros g Hg; destruct f, g; try reflexivity; congruence |].
  destruct (truthy (error_of (field_name f) (errors st))) eqn:Ht.
  - split; [| split; [| split; [| split; reflexivity]]].
    + unfold error_of. now rewrite lookup_set_prop_same.
    + intros key Hkey. unfold error_of. now rewrite lookup_set_prop_other.
    + apply keys_set_prop_present. unfold error_of in Ht.
      destruct (lookup (field_name f) (errors st)); [discriminate | discriminate Ht].
  - repeat split; auto.
Qed.

(** ** Submitting *)

Section SubmitFacts.

Context {World : Type}.
Variable signup login setToken afterwards : value -> @action World.

Lemma handleSubmit_invalid (st : state) (w : World) :
  ~ acceptable st ->
  handleSubmit signup login setToken afterwards st w
  = (with_errors st (fst (validateForm st)), w).
Proof.
  intros Hbad. unfold handleSubmit.
  destruct (validateForm st) as [newErrors valid] eqn:Hv.
  assert (Hvalid : valid = false).
  { destruct valid; [| reflexivity]. exfalso. apply Hbad.
    apply (proj1 (validation_verdict st)). now rewrite Hv. }
  subst valid. reflexivity.
Qed.

Lemma handleSubmit_valid (st : state) (w : World) :
  acceptable st ->
  handleSubmit signup login setToken afterwards st w
  = match authenticate signup login setToken afterwards st w with
    | (Return _, w1) => (State (isSignUp st) (formData st) false [], w1)
    | (Throw error, w1) =>
        (State (isSignUp st) (formData st) false [ ("email", failure_message error) ], w1)
    end.
Proof.
  intros Hok. unfold handleSubmit.
  destruct (validateForm st) as [newErrors valid] eqn:Hv.
  assert (Hvalid : valid = true)
    by (apply (proj1 (validation_verdict st)) in Hok; now rewrite Hv in Hok).
  assert (Hnone : newErrors = [])
    by (apply (proj2 (validation_verdict st)) in Hok; now rewrite Hv in Hok).
  subst valid newErrors. cbn [negb].
  destruct (authenticate signup login setToken afterwards st w) as [[x | e] w1];
    reflexivity.
Qed.

End SubmitFacts.

(** X24.  A form that is not acceptable never reaches the API: whatever the
    collaborators are, [handleSubmit] leaves the world as it was, sets the
    errors of the validation (at least one) and does not touch the loading
    flag. *)
Theorem invalid_form_never_reaches_the_api {World : Type}
    (signup login setToken afterwards : value -> @action World) (st : state) (w : World) :
  ~ acceptable st ->
  handleSubmit signup login setToken afterwards st w
  = (State (isSignUp st) (formData st) (isLoading st) (fst (validateForm st)), w) /\
  fst (validateForm st) <> [].
Proof.
  intros Hbad. split.
  - now apply handleSubmit_invalid.
  - intros Hnone. apply Hbad. now apply (proj2 (validation_verdict st)).
Qed.

Lemma invalid_form_witness :
  modal_submit (State true (Form "Ada" "ada@example" "secret1" "secret1") true []) []
  = (State true (Form "Ada" "ada@example" "secret1" "secret1") true
       (fst (validateForm (State true (Form "Ada" "ada@example" "secret1" "secret1")
                             true []))), []) /\
  fst (validateForm (State true (Form "Ada" "ada@example" "secret1" "secret1") true []))
  <> [].
Proof.
  apply (invalid_form_never_reaches_the_api
           (fun payload => logged (Signup payload) (Throw (Error "Email already registered")))
           (fun payload => logged (Login payload) (Return a_session))
           (fun token => logged (SetToken token) (Return VUndefined))
           (modal_afterwards (fun user => logged (OnAuth user) (Return VUndefined))
                             (logged OnClose (Return VUndefined)))
           (State true (Form "Ada" "ada@example" "secret1" "secret1") true []) []).
  intros H. apply (proj1 (validation_verdict _)) in H. discriminate H.
Defined.

(** X25.  With an acceptable form exactly one API function is called:
    [login] with the email and the password in login mode, [signup] with
    the name, the email and the password (never the confirmation) in sign-up
    mode.  When that call is rejected nothing else is called, the loading
    flag ends [false], and the errors become the single email error:
    the message of the error when it is an Error object, and
    [Authentication failed. Please try again.] otherwise. *)
Theorem rejected_call_becomes_the_email_error {World : Type}
    (signup login setToken afterwards : value -> @action World) (st : state)
    (w w1 : World) (error : value) :
  acceptable st ->
  (if isSignUp st
   then signup (VObj [ ("name", VStr (name (formData st)));
                       ("email", VStr (email (formData st)));
                       ("password", VStr (password (formData st))) ])
   else login (VObj [ ("email", VStr (email (formData st)));
                      ("password", VStr (password (formData st))) ])) w
  = (Throw error, w1) ->
  handleSubmit signup login setToken afterwards st w
  = (State (isSignUp st) (formData st) false
       [ ("email",
          match error with
          | VError _ message props =>
              match lookup "message" props with
              | Some shadow => shadow
              | None => VStr message
              end
          | _ => VStr "Authentication failed. Please try again."
          end) ], w1).
Proof.
  intros Hok Hcall.
  rewrite (handleSubmit_valid signup login setToken afterwards st w Hok).
  unfold authenticate, andThen. rewrite Hcall.
  destruct error; reflexivity.
Qed.

Lemma rejected_call_witness :
  modal_submit (State true (Form "Ada" "ada@example.org" "secret1" "secret1") false
                  [ ("name", VStr "Name is required") ]) []
  = (State true (Form "Ada" "ada@example.org" "secret1" "secret1") false
       [ ("email", VStr "Email already registered") ],
     [ Signup (VObj [ ("name", VStr "Ada"); ("email", VStr "ada@example.org");
                      ("password", VStr "secret1") ]) ]).
Proof.
  apply (rejected_call_becomes_the_email_error
           (fun payload => logged (Signup payload) (Throw (Error "Email already registered")))
           (fun payload => logged (Login payload) (Return a_session))
           (fun token => logged (SetToken token) (Return VUndefined))
           (modal_afterwards (fun user => logged (OnAuth user) (Return VUndefined))
                             (logged OnClose (Return VUndefined)))
           (State true (Form "Ada" "ada@example.org" "secret1" "secret1") false
              [ ("name", VStr "Name is required") ])
           [] _ (Error "Email already registered")).
  - apply (proj1 (validation_verdict _)). reflexivity.
  - reflexivity.
Defined.



(** X27.  In AuthModal, after a call that is accepted, the token of the
    response is stored, then [onAuth] gets the user of the response, then
    [onClose] is called, in this order, and the submit ends without errors
    and not loading.  An exception of [onAuth] (raised after the token was
    stored) is reported like a rejected call, as the email error, and
    [onClose] is not called. *)
Theorem modal_success_stores_the_token_then_notifies {World : Type}
    (signup login setToken onAuth : value -> @action World) (onClose : @action World)
    (st : state) (w w1 w2 w3 : World) (response token user stored : value) :
  acceptable st ->
  (if isSignUp st
   then signup (VObj [ ("name", VStr (name (formData st)));
                       ("email", VStr (email (formData st)));
                       ("password", VStr (password (formData st))) ])
   else login (VObj [ ("email", VStr (email (formData st)));
                      ("password", VStr (password (formData st))) ])) w
  = (Return response, w1) ->
  get_prop response "token" = Return token ->
  setToken token w1 = (Return stored, w2) ->
  get_prop response "user" = Return user ->
  (forall notified closed w4,
      onAuth user w2 = (Return notified, w3) ->
      onClose w3 = (Return closed, w4) ->
      handleSubmit signup login setToken (modal_afterwards onAuth onClose) st w
      = (State (isSignUp st) (formData st) false [], w4)) /\
  (forall error,
      onAuth user w2 = (Throw error, w3) ->
      handleSubmit signup login setToken (modal_afterwards onAuth onClose) st w
      = (State (isSignUp st) (formData st) false [ ("email", failure_message error) ],
         w3)).
Proof.
  intros Hok Hcall Htoken Hset Huser.
  rewrite (handleSubmit_valid signup login setToken (modal_afterwards onAuth onClose)
             st w Hok).
  unfold authenticate, modal_afterwards, andThen, evaluate.
  rewrite Hcall, Htoken, Hset, Huser. split.
  - intros notified closed w4 Hauth Hclose. now rewrite Hauth, Hclose.
  - intros error Hauth. now rewrite Hauth.
Qed.

Lemma modal_success_witness :
  modal_submit (State false (Form "" "ada@example.org" "secret1" "") false
                  [ ("email", VStr "Email is invalid") ]) []
  = (State false (Form "" "ada@example.org" "secret1" "") false [],
     [ Login (VObj [ ("email", VStr "ada@example.org"); ("password", VStr "secret1") ]);
       SetToken (VStr "t0k3n"); OnAuth (VObj [ ("name", VStr "Ada") ]); OnClose ]).
Proof.
  assert (Hok : acceptable (State false (Form "" "ada@example.org" "secret1" "") false
                              [ ("email", VStr "Email is invalid") ]))
    by (apply (proj1 (validation_verdict _)); reflexivity).
  apply (proj1 (modal_success_stores_the_token_then_notifies
                  (fun payload => logged (Signup payload)
                                    (Throw (Error "Email already registered")))
                  (fun payload => logged (Login payload) (Return a_session))
                  (fun token => logged (SetToken token) (Return VUndefined))
                  (fun user => logged (OnAuth user) (Return VUndefined))
                  (logged OnClose (Return VUndefined))
                  (State false (Form "" "ada@example.org" "secret1" "") false
                     [ ("email", VStr "Email is invalid") ])
                  []
                  [ Login (VObj [ ("email", VStr "ada@example.org");
                                  ("password", VStr "secret1") ]) ]
                  [ Login (VObj [ ("email", VStr "ada@example.org");
                                  ("password", VStr "secret1") ]);
                    SetToken (VStr "t0k3n") ]
                  [ Login (VObj [ ("email", VStr "ada@example.org");
                                  ("password", VStr "secret1") ]);
                    SetToken (VStr "t0k3n"); OnAuth (VObj [ ("name", VStr "Ada") ]) ]
                  a_session (VStr "t0k3n") (VObj [ ("name", VStr "Ada") ]) VUndefined
                  Hok eq_refl eq_refl eq_refl eq_refl)
           VUndefined VUndefined); reflexivity.
Defined.

(** X28.  Whatever the collaborators do, a submit never changes the form
    or the mode (after a success the password is still in the state), and
    with an acceptable form it ends not loading, with no errors or with the
    email error alone. *)
Theorem submit_keeps_the_form_and_stops_loading {World : Type}
    (signup login setToken afterwards : value -> @action World) (st : state) (w : World) :
  formData (fst (handleSubmit signup login setToken afterwards st w)) = formData st /\
  isSignUp (fst (handleSubmit signup login setToken afterwards st w)) = isSignUp st /\
  (acceptable st ->
   isLoading (fst (handleSubmit signup login setToken afterwards st w)) = false /\
   (errors (fst (handleSubmit signup login setToken afterwards st w)) = [] \/
    exists message,
      errors (fst (handleSubmit signup login setToken afterwards st w))
      = [ ("email", message) ])).
Proof.
  assert (Hcases : acceptable st \/ ~ acceptable st).
  { destruct (snd (validateForm st)) eqn:Hv.
    - left. now apply (proj1 (validation_verdict st)).
    - right. intros H. apply (proj1 (validation_verdict st)) in H. congruence. }
  destruct Hcases as [Hok | Hbad].
  - rewrite (handleSubmit_valid signup login setToken afterwards st w Hok).
    destruct (authenticate signup login setToken afterwards st w) as [[x | e] w1];
      cbn [fst formData isSignUp isLoading errors];
      (split; [reflexivity |]); (split; [reflexivity |]); intros _;
      (split; [reflexivity |]).
    + left. reflexivity.
    + right. eexists. reflexivity.
  - rewrite (handleSubmit_invalid signup login setToken afterwards st w Hbad).
    cbn [fst with_errors formData isSignUp].
    split; [reflexivity |]. split; [reflexivity |]. intros Hok. contradiction.
Qed.

Lemma submit_keeps_the_form_witness :
  isLoading (fst (modal_submit
                    (State true (Form "Ada" "ada@example.org" "secret1" "secret1") true [])
                    [])) = false /\
  (errors (fst (modal_submit
                  (State true (Form "Ada" "ada@example.org" "secret1" "secret1") true [])
                  [])) = [] \/
   exists message,
     errors (fst (modal_submit
                    (State true (Form "Ada" "ada@example.org" "secret1" "secret1") true [])
                    []))
     = [ ("email", message) ]).
Proof.
  apply (proj2 (proj2 (submit_keeps_the_form_and_stops_loading
                         (fun payload => logged (Signup payload)
                                           (Throw (Error "Email already registered")))
                         (fun payload => logged (Login payload) (Return a_session))
                         (fun token => logged (SetToken token) (Return VUndefined))
                         (modal_afterwards
                            (fun user => logged (OnAuth user) (Return VUndefined))
                            (logged OnClose (Return VUndefined)))
                         (State true (Form "Ada" "ada@example.org" "secret1" "secret1")
                            true [])
                         []))).
  apply (proj1 (validation_verdict _)). reflexivity.
Defined.

End AuthFacts.
